(** * spain-towers-visualizer: the fetch-and-cache client and the view-state controller

  A shallow embedding of [src/services/api.js] (the response cache, [loadMapData]
  and the periodic sweep) and of the data-handling part of [src/App.jsx]
  ([filteredAntenas] and [handleViewportChange]), followed by the properties
  the specification states about them.

  Conventions.
  - [Date.now()] readings, timestamps and durations are milliseconds in [Z].
  - JavaScript strings are [string]s of bytes (UTF-8); every needle the code
    searches for is ASCII, so byte-wise search agrees with the code's.
  - A thrown value is a [JsError] (its [name] and [message]); an operation
    that may throw yields a [Completion].
  - The module state ([CACHE]), the clock, the list of requests sent and
    the console are threaded through a small state-and-exception monad. *)

From Stdlib Require Import String Ascii List ZArith NArith QArith Lia Bool.
From Stdlib Require Import Decimal DecimalString.
Import ListNotations.

Local Open Scope string_scope.
Local Open Scope Z_scope.

(* ================================================================== *)
(** * Platform values *)
(* ================================================================== *)

Module Js.

(** What [JSON.parse] / [response.json()] can produce; a number is given by
    its value. *)
#[warnings="-register-all"]
Inductive Json : Type :=
| JNull
| JBool (b : bool)
| JNum (q : Q)
| JStr (s : string)
| JArr (items : list Json)
| JObj (fields : list (string * Json)).

(** ToBoolean: [null], [false], [0] and the empty string are falsy; arrays and
    objects are truthy. *)
Definition truthy (v : Json) : bool :=
  match v with
  | JNull => false
  | JBool b => b
  | JNum q => negb (Qnum q =? 0)
  | JStr s => negb (s =? EmptyString)%string
  | JArr _ | JObj _ => true
  end.

(** ToBoolean of a string-valued selection. *)
Definition truthy_string (s : string) : bool := negb (s =? EmptyString)%string.

Record JsError : Type := mkError { name : string; message : string }.

(** [new Error(msg)] *)
Definition Error (msg : string) : JsError := {| name := "Error"; message := msg |}.

Definition TypeError (msg : string) : JsError := {| name := "TypeError"; message := msg |}.

Inductive Completion (A : Type) : Type :=
| Normal (a : A)
| Throw (e : JsError).
Arguments Normal {A} a.
Arguments Throw {A} e.

Fixpoint lookup_field (k : string) (fields : list (string * Json)) : option Json :=
  match fields with
  | [] => None
  | (k', v) :: rest => if (k =? k')%string then Some v else lookup_field k rest
  end.

(** [v.k] for a key that no built-in prototype defines: [None] is [undefined];
    reading a property of [null] throws. *)
Definition prop (v : Json) (k : string) : Completion (option Json) :=
  match v with
  | JNull => Throw (TypeError ("Cannot read properties of null (reading '" ++ k ++ "')"))
  | JObj fields => Normal (lookup_field k fields)
  | _ => Normal None
  end.

(** [x || d] where [x] may be [undefined]. *)
Definition or_else (x : option Json) (d : Json) : Json :=
  match x with
  | Some v => if truthy v then v else d
  | None => d
  end.

(** [x !== s] for a string [s]. *)
Definition strict_neq_string (x : option Json) (s : string) : bool :=
  match x with
  | Some (JStr t) => negb (t =? s)%string
  | _ => true
  end.

(** [s.startsWith(p)] *)
Fixpoint starts_with (p s : string) : bool :=
  match p, s with
  | EmptyString, _ => true
  | String _ _, EmptyString => false
  | String a p', String b s' => Ascii.eqb a b && starts_with p' s'
  end.

(** [hay.includes(needle)]: the needle starts at some position of the text. *)
Fixpoint includes (needle hay : string) : bool :=
  starts_with needle hay ||
  match hay with
  | EmptyString => false
  | String _ rest => includes needle rest
  end.

(** Sequencing of operations that may throw. *)
Definition and_then {A B} (c : Completion A) (k : A -> Completion B) : Completion B :=
  match c with
  | Normal a => k a
  | Throw e => Throw e
  end.

(** Number::toString on the integers the code renders. *)
Definition N_toString (n : N) : string := NilZero.string_of_uint (N.to_uint n).
Definition Z_toString (z : Z) : string := NilZero.string_of_int (Z.to_int z).

(** [Array.prototype.filter] with a callback that may throw. *)
Fixpoint Array_filter (cb : Json -> Completion bool) (xs : list Json)
  : Completion (list Json) :=
  match xs with
  | [] => Normal []
  | x :: rest =>
      match cb x with
      | Throw e => Throw e
      | Normal keep =>
          match Array_filter cb rest with
          | Throw e => Throw e
          | Normal kept => Normal (if keep then x :: kept else kept)
          end
      end
  end.

(** The application/x-www-form-urlencoded serializer behind
    [URLSearchParams.prototype.toString]. *)
Definition hex_digit (n : N) : ascii :=
  ascii_of_N (if (n <? 10)%N then 48 + n else 55 + n)%N.

Definition unreserved (c : ascii) : bool :=
  let n := N_of_ascii c in
  ((48 <=? n) && (n <=? 57) || (65 <=? n) && (n <=? 90) || (97 <=? n) && (n <=? 122)
   || (n =? 42) || (n =? 45) || (n =? 46) || (n =? 95))%N.

Fixpoint form_encode (s : string) : string :=
  match s with
  | EmptyString => EmptyString
  | String c rest =>
      if unreserved c then String c (form_encode rest)
      else if (N_of_ascii c =? 32)%N then String "+" (form_encode rest)
      else String "%" (String (hex_digit (N_of_ascii c / 16))
                         (String (hex_digit (N_of_ascii c mod 16)) (form_encode rest)))
  end.

Fixpoint URLSearchParams_toString (params : list (string * string)) : string :=
  match params with
  | [] => EmptyString
  | [(k, v)] => form_encode k ++ "=" ++ form_encode v
  | (k, v) :: rest => form_encode k ++ "=" ++ form_encode v ++ "&" ++ URLSearchParams_toString rest
  end.

(** [parts.join(sep)] *)
Definition join (sep : string) (parts : list string) : string := String.concat sep parts.

End Js.

(* ================================================================== *)
(** * The built-in [Map], keyed by strings *)
(* ================================================================== *)

(** A [Map] keeps its entries in insertion order; [set] on a present key
  replaces the value where it stands, [delete] removes the entry. *)
Module JsMap.

Definition t (V : Type) : Type := list (string * V).

Definition empty {V} : t V := [].

Fixpoint get {V} (k : string) (m : t V) : option V :=
  match m with
  | [] => None
  | (k', v) :: rest => if (k =? k')%string then Some v else get k rest
  end.

Fixpoint set {V} (k : string) (v : V) (m : t V) : t V :=
  match m with
  | [] => [(k, v)]
  | (k', v') :: rest =>
      if (k =? k')%string then (k, v) :: rest else (k', v') :: set k v rest
  end.

Fixpoint delete {V} (k : string) (m : t V) : t V :=
  match m with
  | [] => []
  | (k', v') :: rest =>
      if (k =? k')%string then rest else (k', v') :: delete k rest
  end.

Definition entries {V} (m : t V) : list (string * V) := m.

Definition keys {V} (m : t V) : list string := map fst m.

(** The representation invariant of a [Map]: one entry per key. *)
Definition wf {V} (m : t V) : Prop := NoDup (keys m).

End JsMap.

(* ================================================================== *)
(** * State and exceptions *)
(* ================================================================== *)

(** A computation over a state [S] that completes normally or throws. *)
Module Eff.
Import Js.

Definition M (S A : Type) : Type := S -> Completion A * S.

Definition ret {S A} (a : A) : M S A := fun s => (Normal a, s).

Definition bind {S A B} (m : M S A) (k : A -> M S B) : M S B :=
  fun s =>
    match m s with
    | (Normal a, s') => k a s'
    | (Throw e, s') => (Throw e, s')
    end.

Definition throw {S A} (e : JsError) : M S A := fun s => (Throw e, s).

(** [try { body } catch (error) { handler }] *)
Definition try_catch {S A} (body : M S A) (handler : JsError -> M S A) : M S A :=
  fun s =>
    match body s with
    | (Normal a, s') => (Normal a, s')
    | (Throw e, s') => handler e s'
    end.

Definition gets {S A} (f : S -> A) : M S A := fun s => (Normal (f s), s).

Definition modify {S} (f : S -> S) : M S unit := fun s => (Normal tt, f s).

(** [if (c) { m }] *)
Definition when {S} (c : bool) (m : M S unit) : M S unit := if c then m else ret tt.

Declare Scope eff_scope.
Delimit Scope eff_scope with eff.
Notation "x <- m ;; k" := (bind m (fun x => k))
  (at level 61, m at next level, right associativity) : eff_scope.
Notation "m ;; k" := (bind m (fun _ => k))
  (at level 61, right associativity) : eff_scope.

End Eff.

(* ================================================================== *)
(** * src/services/api.js *)
(* ================================================================== *)

Module Api.
Import Js Eff.
Local Open Scope eff_scope.

(** The value stored under a URL: [{ data, timestamp }]. *)
Record Entry : Type := { data : Json; timestamp : Z }.

(** [const CACHE_DURATION = 5 * 60 * 1000] *)
Definition CACHE_DURATION : Z := 5 * 60 * 1000.

(** The argument of [AbortSignal.timeout] in [loadMapData]. *)
Definition FETCH_TIMEOUT : Z := 10000.

(** The delay given to [setInterval]. *)
Definition SWEEP_INTERVAL : Z := 60000.

(** The head of an HTTP response. [response.ok] is, by the Fetch standard,
    "the status is in the range 200 to 299". *)
Record Response : Type := { status : N; statusText : string }.

Definition ok (r : Response) : bool := ((200 <=? status r) && (status r <=? 299))%N.

(** What the network does with one request: after [fetch_ms] the [fetch]
    promise would settle, rejected with an error or fulfilled with a
    response head; after a further [body_ms] the body would have been read and
    [response.json()] would settle, rejected (a body that is not JSON, a
    broken stream) or fulfilled with the parsed value. *)
Record Exchange : Type := {
  fetch_ms : Z;
  fetch_result : JsError + Response;
  body_ms : Z;
  body_result : JsError + Json
}.

(** The abort reason of a signal made by [AbortSignal.timeout]. *)
Definition TimeoutException : JsError :=
  {| name := "TimeoutError"; message := "signal timed out" |}.

(** The lines written to the console, by [console.log] or [console.error].
    [LogApiSuccess] stands for the line that prints the URL and
    [getDataSize(data)], a function of [data] alone. *)
Inductive LogLine : Type :=
| LogCacheHit (url : string)
| LogApiCall (url : string)
| LogApiSuccess (url : string) (data : Json)
| LogApiError (url : string) (error : JsError)
| LogCacheCleaned (cleanedCount : nat)
| LogViewportError (err : JsError).

(** The module's state and its environment: the [CACHE], the reading of
    [Date.now()], the URLs handed to [fetch] so far (latest first) and the
    console (latest first). *)
Record World : Type := {
  CACHE : JsMap.t Entry;
  clock : Z;
  requests : list string;
  console : list LogLine
}.

Definition initial (t0 : Z) : World :=
  {| CACHE := JsMap.empty; clock := t0; requests := []; console := [] |}.

Definition with_cache (c : JsMap.t Entry) (w : World) : World :=
  {| CACHE := c; clock := clock w; requests := requests w; console := console w |}.

Definition advance (ms : Z) (w : World) : World :=
  {| CACHE := CACHE w; clock := clock w + ms; requests := requests w; console := console w |}.

Definition sent (url : string) (w : World) : World :=
  {| CACHE := CACHE w; clock := clock w; requests := url :: requests w; console := console w |}.

Definition printed (l : LogLine) (w : World) : World :=
  {| CACHE := CACHE w; clock := clock w; requests := requests w; console := l :: console w |}.

Definition Date_now : M World Z := gets clock.

Definition CACHE_get (url : string) : M World (option Entry) :=
  gets (fun w => JsMap.get url (CACHE w)).

Definition CACHE_set (url : string) (e : Entry) : M World unit :=
  modify (fun w => with_cache (JsMap.set url e (CACHE w)) w).

Definition console_log (l : LogLine) : M World unit := modify (printed l).

(** [await fetch(url, { ..., signal: AbortSignal.timeout(10000) })]: the request
    is sent; if it has not settled when the signal fires, the promise rejects
    with the signal's reason. *)
Definition fetch (x : Exchange) (url : string) : M World Response :=
  fun w =>
    let w := sent url w in
    if FETCH_TIMEOUT <? fetch_ms x then (Throw TimeoutException, advance FETCH_TIMEOUT w)
    else
      match fetch_result x with
      | inl e => (Throw e, advance (fetch_ms x) w)
      | inr r => (Normal r, advance (fetch_ms x) w)
      end.

(** [await response.json()]: the signal still guards the reading of the body. *)
Definition Response_json (x : Exchange) : M World Json :=
  fun w =>
    if FETCH_TIMEOUT <? fetch_ms x + body_ms x
    then (Throw TimeoutException, advance (FETCH_TIMEOUT - fetch_ms x) w)
    else
      match body_result x with
      | inl e => (Throw e, advance (body_ms x) w)
      | inr v => (Normal v, advance (body_ms x) w)
      end.

(** The [catch] block of [loadMapData]: the error that is thrown on. *)
Definition rethrown (error : JsError) : JsError :=
  if (name error =? "TimeoutError")%string then
    Error "El servidor tardó demasiado en responder"
  else if (name error =? "AbortError")%string then
    Error "La petición fue cancelada"
  else if includes "HTTP" (message error) then
    Error ("Error del servidor: " ++ message error)
  else
    Error "Error de conexión. Verifica tu internet.".

(** [loadMapData] from the line that logs the API call on: the request, the
    status check, the parse, the store into the cache. *)
Definition request (x : Exchange) (url : string) : M World Json :=
  console_log (LogApiCall url) ;;
  try_catch
    (response <- fetch x url ;;
     when (negb (ok response))
       (throw (Error ("HTTP " ++ N_toString (status response) ++ ": " ++ statusText response))) ;;
     data <- Response_json x ;;
     now <- Date_now ;;
     CACHE_set url {| data := data; timestamp := now |} ;;
     console_log (LogApiSuccess url data) ;;
     ret data)
    (fun error =>
       console_log (LogApiError url error) ;;
       throw (rethrown error)).

Definition loadMapData (x : Exchange) (url : string) : M World Json :=
  cached <- CACHE_get url ;;
  match cached with
  | Some c =>
      now <- Date_now ;;
      if now - timestamp c <? CACHE_DURATION
      then console_log (LogCacheHit url) ;; ret (data c)
      else request x url
  | None => request x url
  end.

(** The body of the [for ... of CACHE.entries()] loop, over the entries still
    to be visited. Deleting the entry being visited leaves the later ones in
    place, so they are the tail of the list the loop started from. *)
Fixpoint sweep_loop (now : Z) (pending : list (string * Entry))
  (cache : JsMap.t Entry) (cleanedCount : nat) : JsMap.t Entry * nat :=
  match pending with
  | [] => (cache, cleanedCount)
  | (key, value) :: rest =>
      if now - timestamp value >? CACHE_DURATION
      then sweep_loop now rest (JsMap.delete key cache) (S cleanedCount)
      else sweep_loop now rest cache cleanedCount
  end.

(** The callback given to [setInterval]. *)
Definition sweep : M World unit :=
  now <- Date_now ;;
  cache <- gets CACHE ;;
  let (cache', cleanedCount) := sweep_loop now (JsMap.entries cache) cache 0 in
  modify (with_cache cache') ;;
  when (0 <? cleanedCount)%nat (console_log (LogCacheCleaned cleanedCount)).

(** What can happen to the module between two observations. [Store] is the
    tail of a call that was suspended at an [await] while other events ran:
    its [CACHE.set] with the then current time. *)
Inductive Event : Type :=
| Tick (ms : Z)
| Load (x : Exchange) (url : string)
| Store (url : string) (data : Json)
| Sweep.

Definition step (w : World) (ev : Event) : World :=
  match ev with
  | Tick ms => advance ms w
  | Load x url => snd (loadMapData x url w)
  | Store url data => snd ((now <- Date_now ;; CACHE_set url {| data := data; timestamp := now |}) w)
  | Sweep => snd (sweep w)
  end.

Definition run (evs : list Event) (w : World) : World := fold_left step evs w.

End Api.

(* ================================================================== *)
(** * src/App.jsx *)
(* ================================================================== *)

Module App.
Import Js Eff Api.
Local Open Scope eff_scope.

(** What the map reports: the bounding box, each coordinate as the text
    [Array.prototype.join] renders it to, and the zoom level. *)
Record Viewport : Type := { bbox : list string; zoom : Z }.

Record Filters : Type := {
  operador : string;
  tecnologia : string;
  viewport : option Viewport
}.

(** The component's [useState] cells. *)
Record State : Type := {
  antenas : Json;
  stats : Json;
  loading : bool;
  error : option string;
  filters : Filters
}.

Definition initial_state : State :=
  {| antenas := JArr [];
     stats := JNull;
     loading := true;
     error := None;
     filters := {| operador := EmptyString; tecnologia := EmptyString; viewport := None |} |}.

(** The component together with the module it imports. *)
Record Page : Type := { ui : State; world : World }.

Definition lift {A} (m : M World A) : M Page A :=
  fun p => let (r, w) := m (world p) in (r, {| ui := ui p; world := w |}).

Definition of_completion {A} (c : Completion A) : M Page A := fun p => (c, p).

Definition setAntenas (v : Json) : M Page unit :=
  modify (fun p =>
    {| ui := {| antenas := v;
                stats := stats (ui p);
                loading := loading (ui p);
                error := error (ui p);
                filters := filters (ui p) |};
       world := world p |}).

(** [selection && props[key] !== selection]: a selection is set and the
    record's attribute is another value. *)
Definition differs (props : Json) (key selection : string) : Completion bool :=
  if truthy_string selection
  then and_then (prop props key) (fun v => Normal (strict_neq_string v selection))
  else Normal false.

(** The callback of [antenas.filter] in [filteredAntenas]. *)
Definition keeps (f : Filters) (antena : Json) : Completion bool :=
  and_then (prop antena "properties") (fun p =>
    let props := or_else p (JObj []) in
    and_then (differs props "operador" (operador f)) (fun other_operator =>
      if other_operator then Normal false
      else
        and_then (differs props "tecnologia" (tecnologia f)) (fun other_technology =>
          if other_technology then Normal false
          else Normal true))).

(** [filteredAntenas]: the [useMemo] value, computed from the [antenas] cell
    and the two selections. *)
Definition filteredAntenas (antenas : Json) (f : Filters) : Completion (list Json) :=
  match antenas with
  | JArr items => Array_filter (keeps f) items
  | _ => Throw (TypeError "antenas.filter is not a function")
  end.

Section Controller.

(** [import.meta.env.VITE_API_URL], when the build defines it. *)
Variable VITE_API_URL : option string.

Definition API_BASE : string :=
  match VITE_API_URL with
  | Some u => if truthy_string u then u else "https://your-api.railway.app"
  | None => "https://your-api.railway.app"
  end.

(** The URL [handleViewportChange] asks for: clusters up to zoom 10, single
    antennas above; the bounding box, the zoom and the selections that are
    set go into the query. *)
Definition viewport_url (f : Filters) (vp : Viewport) : string :=
  let endpoint := if zoom vp <=? 10 then "/map/clusters" else "/map/antenas" in
  let params :=
    ([("bbox", join "," (bbox vp)); ("zoom", Z_toString (zoom vp))]
     ++ (if truthy_string (operador f) then [("operador", operador f)] else [])
     ++ (if truthy_string (tecnologia f) then [("tecnologia", tecnologia f)] else []))%list in
  API_BASE ++ endpoint ++ "?" ++ URLSearchParams_toString params.

(** The [try] block of [handleViewportChange]. *)
Definition reload (x : Exchange) (vp : Viewport) : M Page unit :=
  f <- gets (fun p => filters (ui p)) ;;
  data <- lift (loadMapData x (viewport_url f vp)) ;;
  features <- of_completion (prop data "features") ;;
  setAntenas (or_else features (JArr [])).

Definition handleViewportChange (x : Exchange) (viewport : option Viewport) : M Page unit :=
  match viewport with
  | None => ret tt
  | Some vp =>
      try_catch (reload x vp)
        (fun err => lift (console_log (LogViewportError err)))
  end.

End Controller.

End App.

(* ================================================================== *)
(** * The specification's vocabulary *)
(* ================================================================== *)

Module Spec.
Import Js Api App.

(** The four kinds of failure the fetch layer reports. *)
Inductive ErrorKind : Type :=
| TimeoutError
| CancelledError
| ServerError
| ConnectionError.

(** The stable message of each kind; that of a [ServerError] carries the text
    of the failure it reports. *)
Definition timeout_message : string := "El servidor tardó demasiado en responder".
Definition cancelled_message : string := "La petición fue cancelada".
Definition server_message (inner : string) : string := "Error del servidor: " ++ inner.
Definition connection_message : string := "Error de conexión. Verifica tu internet.".

Definition message_of (k : ErrorKind) (inner : string) : string :=
  match k with
  | TimeoutError => timeout_message
  | CancelledError => cancelled_message
  | ServerError => server_message inner
  | ConnectionError => connection_message
  end.

(** The kind a caller reads off a reported message. *)
Definition kind_of (msg : string) : option ErrorKind :=
  if (msg =? timeout_message)%string then Some TimeoutError
  else if (msg =? cancelled_message)%string then Some CancelledError
  else if starts_with (server_message EmptyString) msg then Some ServerError
  else if (msg =? connection_message)%string then Some ConnectionError
  else None.

(** Within the ten seconds the exchange ends with a rejection: of the
    promise of [fetch] (no response), or, the response having a success
    status, of the promise of [response.json()] (the body is lost or is not
    JSON). [err] is the reason of the rejection. *)
Definition rejected_with (x : Exchange) (err : JsError) : Prop :=
  fetch_ms x <= FETCH_TIMEOUT /\
  (fetch_result x = inl err \/
   exists r, fetch_result x = inr r /\ ok r = true /\
             fetch_ms x + body_ms x <= FETCH_TIMEOUT /\ body_result x = inl err).

(** An entry of the cache is fresh when its age is below the time to live. *)
Definition fresh (now : Z) (e : Entry) : bool := now - timestamp e <? CACHE_DURATION.

(** An entry has expired when its age is above the time to live. *)
Definition expired (now : Z) (e : Entry) : bool := now - timestamp e >? CACHE_DURATION.

(** What a sweep at time [now] leaves in the cache. *)
Definition survives (now : Z) (kv : string * Entry) : bool := negb (expired now (snd kv)).

(** [loadMapData url] would be answered from the cache in this world. *)
Definition cached_fresh (url : string) (w : World) : bool :=
  match JsMap.get url (CACHE w) with
  | Some e => fresh (clock w) e
  | None => false
  end.

(** An antenna record: an object, with its attributes under [properties]. *)
Definition AntennaRecord : Type := list (string * Json).

(** The text of an attribute of a record, when it has one. *)
Definition attribute (key : string) (r : AntennaRecord) : option string :=
  match lookup_field "properties" r with
  | Some (JObj props) =>
      match lookup_field key props with
      | Some (JStr s) => Some s
      | _ => None
      end
  | _ => None
  end.

(** A selection matches a record when it is empty or equals the attribute. *)
Definition selection_matches (selection : string) (attr : option string) : bool :=
  match selection with
  | EmptyString => true
  | _ => match attr with
         | Some s => (s =? selection)%string
         | None => false
         end
  end.

(** The records the specification says are displayed. *)
Definition displayed (f : Filters) (records : list AntennaRecord) : list AntennaRecord :=
  filter (fun r => selection_matches (operador f) (attribute "operador" r)
                   && selection_matches (tecnologia f) (attribute "tecnologia" r))
         records.

End Spec.

(* ================================================================== *)
(** * Sample data *)
(* ================================================================== *)

Module Sample.
Import Js Api App.

Definition stats_url : string := "https://your-api.railway.app/map/stats".

Definition stats_body : Json :=
  JObj [("total", JNum (inject_Z 48213)); ("operadores", JObj [("Movistar", JNum (inject_Z 17020))])].

Definition movistar_5g : Spec.AntennaRecord :=
  [("type", JStr "Feature");
   ("properties", JObj [("id", JNum (inject_Z 1)); ("operador", JStr "Movistar");
                        ("tecnologia", JStr "5G"); ("provincia", JStr "Madrid")])].

Definition vodafone_4g : Spec.AntennaRecord :=
  [("type", JStr "Feature");
   ("properties", JObj [("id", JNum (inject_Z 2)); ("operador", JStr "Vodafone");
                        ("tecnologia", JStr "4G"); ("provincia", JStr "Sevilla")])].

Definition unlabelled : Spec.AntennaRecord := [("type", JStr "Feature")].

Definition features_body : Json :=
  JObj [("type", JStr "FeatureCollection");
        ("features", JArr [JObj movistar_5g; JObj vodafone_4g])].

(** A request answered with status 200 and a JSON body. *)
Definition answered (body : Json) : Exchange :=
  {| fetch_ms := 120;
     fetch_result := inr {| status := 200; statusText := "OK" |};
     body_ms := 30;
     body_result := inr body |}.

(** A request answered with status 404. *)
Definition not_found : Exchange :=
  {| fetch_ms := 80;
     fetch_result := inr {| status := 404; statusText := "Not Found" |};
     body_ms := 0;
     body_result := inr JNull |}.

(** A request answered with status 200 and a body that is not JSON. *)
Definition html_body : Exchange :=
  {| fetch_ms := 120;
     fetch_result := inr {| status := 200; statusText := "OK" |};
     body_ms := 30;
     body_result := inl {| name := "SyntaxError";
                           message := "Unexpected token < in JSON at position 0" |} |}.

(** A request the server never answers. *)
Definition silent : Exchange :=
  {| fetch_ms := 45000;
     fetch_result := inl (TypeError "Failed to fetch");
     body_ms := 0;
     body_result := inr JNull |}.

(** A request that fails for want of a connection. *)
Definition offline : Exchange :=
  {| fetch_ms := 15;
     fetch_result := inl (TypeError "Failed to fetch");
     body_ms := 0;
     body_result := inr JNull |}.

(** A request cancelled by the browser. *)
Definition cancelled : Exchange :=
  {| fetch_ms := 15;
     fetch_result := inl {| name := "AbortError"; message := "The user aborted a request." |};
     body_ms := 0;
     body_result := inr JNull |}.

(** A request cancelled by the browser while the body is read. *)
Definition cancelled_reading : Exchange :=
  {| fetch_ms := 120;
     fetch_result := inr {| status := 200; statusText := "OK" |};
     body_ms := 40;
     body_result := inl {| name := "AbortError"; message := "The user aborted a request." |} |}.

(** A connection lost while the body is read. *)
Definition dropped_reading : Exchange :=
  {| fetch_ms := 120;
     fetch_result := inr {| status := 200; statusText := "OK" |};
     body_ms := 40;
     body_result := inl (TypeError "network error") |}.

(** A request that fails in a redirect loop; the engine's text names the protocol. *)
Definition redirect_loop : Exchange :=
  {| fetch_ms := 300;
     fetch_result := inl (TypeError "too many HTTP redirects");
     body_ms := 0;
     body_result := inr JNull |}.

(** The world after one successful load of the statistics at time 1000. *)
Definition warm : World := snd (loadMapData (answered stats_body) stats_url (initial 1000)).

Definition madrid : Viewport := {| bbox := ["-3.8"; "40.3"; "-3.5"; "40.6"]; zoom := 12 |}.

Definition page_with (items : list Json) (w : World) : Page :=
  {| ui := {| antenas := JArr items;
              stats := stats_body;
              loading := false;
              error := None;
              filters := {| operador := "Movistar"; tecnologia := EmptyString; viewport := None |} |};
     world := w |}.

End Sample.

(* ================================================================== *)
(** * Histories of the module *)
(* ================================================================== *)

Module Trace.
Import Js Api.

(** An event that is a whole call, a sweep or the passing of time: every
    store into the cache is then the store of a call of the history. *)
Definition whole (ev : Event) : bool :=
  match ev with
  | Store _ _ => false
  | _ => true
  end.

(** An event during which the clock does not run backwards. *)
Definition forward (ev : Event) : bool :=
  match ev with
  | Tick ms => 0 <=? ms
  | Load x _ => (0 <=? fetch_ms x) && (0 <=? body_ms x)
  | Store _ _ => true
  | Sweep => true
  end.

(** Every URL in the cache has been handed to [fetch]. *)
Definition requested (w : World) : Prop :=
  forall k, In k (JsMap.keys (CACHE w)) -> In k (requests w).

(** No entry carries a timestamp later than the current time. *)
Definition not_ahead (w : World) : Prop :=
  forall k e, In (k, e) (JsMap.entries (CACHE w)) -> timestamp e <= clock w.

End Trace.

(* ================================================================== *)
(** * [loadMapData], split at its [await]s *)
(* ================================================================== *)

(** An [async] call runs up to its first [await] when it is made and goes
    on when the awaited promise settles; other code runs in between. All the
    effects of [loadMapData] after the request is sent happen at one instant:
    when the exchange fails, or when the body has been parsed. *)
Module Async.
Import Js Eff Api.
Local Open Scope eff_scope.

(** Where a call stands when it first yields. *)
Inductive Started : Type :=
| Answered (data : Json)
| InFlight.

(** [loadMapData] up to the point where the request has been sent. *)
Definition begin (url : string) : M World Started :=
  cached <- CACHE_get url ;;
  match cached with
  | Some c =>
      now <- Date_now ;;
      if now - timestamp c <? CACHE_DURATION
      then console_log (LogCacheHit url) ;; ret (Answered (data c))
      else console_log (LogApiCall url) ;; modify (sent url) ;; ret InFlight
  | None => console_log (LogApiCall url) ;; modify (sent url) ;; ret InFlight
  end.

(** How long after the request was sent the [try] block is left. *)
Definition settles_after (x : Exchange) : Z :=
  if FETCH_TIMEOUT <? fetch_ms x then FETCH_TIMEOUT
  else
    match fetch_result x with
    | inl _ => fetch_ms x
    | inr r =>
        if negb (ok r) then fetch_ms x
        else if FETCH_TIMEOUT <? fetch_ms x + body_ms x then FETCH_TIMEOUT
        else fetch_ms x + body_ms x
    end.

(** How the [try] block is left: with the parsed body, or with the error
    that goes to the [catch] block. *)
Definition settlement (x : Exchange) : JsError + Json :=
  if FETCH_TIMEOUT <? fetch_ms x then inl TimeoutException
  else
    match fetch_result x with
    | inl e => inl e
    | inr r =>
        if negb (ok r)
        then inl (Error ("HTTP " ++ N_toString (status r) ++ ": " ++ statusText r))
        else if FETCH_TIMEOUT <? fetch_ms x + body_ms x then inl TimeoutException
        else body_result x
    end.

(** What the call gives its caller when the exchange has settled. *)
Definition outcome (x : Exchange) : Completion Json :=
  match settlement x with
  | inl error => Throw (rethrown error)
  | inr data => Normal data
  end.

Definition at_time (t : Z) (w : World) : World :=
  {| CACHE := CACHE w; clock := t; requests := requests w; console := console w |}.

(** The rest of a call whose request was sent at time [started]: at the time
    the exchange settles, the store into the cache or the [catch] block. *)
Definition finish (x : Exchange) (url : string) (started : Z) : M World Json :=
  modify (at_time (started + settles_after x)) ;;
  match settlement x with
  | inl error =>
      console_log (LogApiError url error) ;;
      throw (rethrown error)
  | inr data =>
      now <- Date_now ;;
      CACHE_set url {| data := data; timestamp := now |} ;;
      console_log (LogApiSuccess url data) ;;
      ret data
  end.

End Async.

(* ================================================================== *)
(** * src/App.jsx, the rest of the component *)
(* ================================================================== *)

Module Component.
Import Js Eff Api App Async.
Local Open Scope eff_scope.

Definition with_ui (f : State -> State) : M Page unit :=
  modify (fun p => {| ui := f (ui p); world := world p |}).

Definition setStats (v : Json) : M Page unit :=
  with_ui (fun s =>
    {| antenas := antenas s; stats := v; loading := loading s;
       error := error s; filters := filters s |}).

Definition setLoading (b : bool) : M Page unit :=
  with_ui (fun s =>
    {| antenas := antenas s; stats := stats s; loading := b;
       error := error s; filters := filters s |}).

Definition setError (e : option string) : M Page unit :=
  with_ui (fun s =>
    {| antenas := antenas s; stats := stats s; loading := loading s;
       error := e; filters := filters s |}).

(** [setFilters(prev => ...)] *)
Definition setFilters (update : Filters -> Filters) : M Page unit :=
  with_ui (fun s =>
    {| antenas := antenas s; stats := stats s; loading := loading s;
       error := error s; filters := update (filters s) |}).

(** The object given to [updateFilters]: for each key of the filters, the new
    value when the object has the key. *)
Record FiltersPatch : Type := {
  new_operador : option string;
  new_tecnologia : option string;
  new_viewport : option (option Viewport)
}.

(** [{ ...prev, ...newFilters }] *)
Definition spread (prev : Filters) (newFilters : FiltersPatch) : Filters :=
  {| operador := match new_operador newFilters with Some v => v | None => operador prev end;
     tecnologia := match new_tecnologia newFilters with Some v => v | None => tecnologia prev end;
     viewport := match new_viewport newFilters with Some v => v | None => viewport prev end |}.

Definition updateFilters (newFilters : FiltersPatch) : M Page unit :=
  setFilters (fun prev => spread prev newFilters).

(** What the component returns: one of its three screens, the third with the
    values handed to [Controls], [MapContainer] and [StatsPanel]. *)
Inductive Screen : Type :=
| LoadingScreen
| ErrorScreen (message : string)
| Dashboard (stats : Json) (filters : Filters) (antenasCount : nat) (antenas : list Json).

(** The body of [App] below the hooks. The [useMemo] of [filteredAntenas]
    is among the hooks, so it is computed before any of the early returns. *)
Definition render (s : State) : Completion Screen :=
  and_then (filteredAntenas (antenas s) (filters s)) (fun filtered =>
    if loading s then Normal LoadingScreen
    else
      match error s with
      | Some message =>
          if truthy_string message then Normal (ErrorScreen message)
          else Normal (Dashboard (stats s) (filters s) (length filtered) filtered)
      | None => Normal (Dashboard (stats s) (filters s) (length filtered) filtered)
      end).

(** Runs a call of the module and hands its completion over as a value. *)
Definition settle {A} (m : M World A) : M Page (Completion A) :=
  fun p => let (r, w) := m (world p) in (Normal r, {| ui := ui p; world := w |}).

Section Startup.

Variable VITE_API_URL : option string.

Definition stats_url : string := API_BASE VITE_API_URL ++ "/map/stats".

Definition antenas_url : string := API_BASE VITE_API_URL ++ "/map/antenas?limit=200".

Definition load_failed : string :=
  "No se pudieron cargar los datos de antenas. Verifica tu conexión.".

(** [initializeData] from the point where [Promise.all] has settled: the
    rest of the [try] block, the [catch] block, the [finally] block. The
    result is the error written to the console by the [catch] block, if
    any. *)
Definition resume (joined : Completion (Json * Json)) : M Page (option JsError) :=
  logged <-
    try_catch
      (both <- of_completion joined ;;
       setStats (fst both) ;;
       features <- of_completion (prop (snd both) "features") ;;
       setAntenas (or_else features (JArr [])) ;;
       ret None)
      (fun err =>
         setError (Some load_failed) ;;
         ret (Some err)) ;;
  setLoading false ;;
  ret logged.

(** [initializeData]. The two calls are made one after the other and each
    runs up to the sending of its request; then they are completed in the
    order in which their exchanges settle (the first call first when both
    settle at the same time). [Promise.all] is fulfilled when both calls
    have returned and rejected as soon as one has thrown; the other call is
    still completed. *)
Definition initializeData (x_stats x_antenas : Exchange) : M Page (option JsError) :=
  setLoading true ;;
  setError None ;;
  started <- lift Date_now ;;
  s1 <- lift (begin stats_url) ;;
  s2 <- lift (begin antenas_url) ;;
  match s1, s2 with
  | Answered a, Answered b => resume (Normal (a, b))
  | Answered a, InFlight =>
      r2 <- settle (finish x_antenas antenas_url started) ;;
      resume (and_then r2 (fun b => Normal (a, b)))
  | InFlight, Answered b =>
      r1 <- settle (finish x_stats stats_url started) ;;
      resume (and_then r1 (fun a => Normal (a, b)))
  | InFlight, InFlight =>
      if settles_after x_stats <=? settles_after x_antenas then
        r1 <- settle (finish x_stats stats_url started) ;;
        match r1 with
        | Throw e =>
            logged <- resume (Throw e) ;;
            settle (finish x_antenas antenas_url started) ;;
            ret logged
        | Normal a =>
            r2 <- settle (finish x_antenas antenas_url started) ;;
            resume (and_then r2 (fun b => Normal (a, b)))
        end
      else
        r2 <- settle (finish x_antenas antenas_url started) ;;
        match r2 with
        | Throw e =>
            logged <- resume (Throw e) ;;
            settle (finish x_stats stats_url started) ;;
            ret logged
        | Normal b =>
            r1 <- settle (finish x_stats stats_url started) ;;
            resume (and_then r1 (fun a => Normal (a, b)))
        end
  end.

End Startup.

End Component.

(* ================================================================== *)
(** * Reading queries *)
(* ================================================================== *)

Module Query.
Import Js App.

(** Whether a character occurs in a text. *)
Fixpoint mentions (c : ascii) (s : string) : bool :=
  match s with
  | EmptyString => false
  | String a rest => Ascii.eqb a c || mentions c rest
  end.

Definition hex_value (c : ascii) : N :=
  let n := N_of_ascii c in if (n <? 58)%N then (n - 48)%N else (n - 55)%N.

(** Reads the first character back from a text made by [form_encode]. *)
Definition decode_head (s : string) : option (ascii * string) :=
  match s with
  | EmptyString => None
  | String c rest =>
      if Ascii.eqb c "+" then Some (" "%char, rest)
      else if Ascii.eqb c "%" then
        match rest with
        | String h (String l rest') =>
            Some (ascii_of_N (16 * hex_value h + hex_value l), rest')
        | _ => None
        end
      else Some (c, rest)
  end.

(** The parameter a selection adds to the query. *)
Definition selection_param (key selection : string) : string :=
  match selection with
  | EmptyString => EmptyString
  | _ => "&" ++ key ++ "=" ++ form_encode selection
  end.

End Query.

(** Runs a computation of the monad on its state. *)
Ltac run_monad :=
  unfold Api.loadMapData, Api.request, Api.fetch, Api.Response_json,
    Eff.try_catch, Eff.bind, Eff.ret, Eff.throw, Eff.when, Eff.gets, Eff.modify,
    Api.Date_now, Api.CACHE_get, Api.CACHE_set, Api.console_log in *;
  simpl in *.

(* ================================================================== *)
(** * Facts about [Map] *)
(* ================================================================== *)

Section MapFacts.
Context {V : Type}.
Implicit Types (m : JsMap.t V) (k : string) (v : V).

Lemma get_set_same k v m : JsMap.get k (JsMap.set k v m) = Some v.
Proof.
  induction m as [|[k' v'] m IH]; simpl.
  - now rewrite String.eqb_refl.
  - destruct (k =? k')%string eqn:E; simpl.
    + now rewrite String.eqb_refl.
    + now rewrite E.
Qed.

Lemma get_set_other k k' v m :
  k <> k' -> JsMap.get k' (JsMap.set k v m) = JsMap.get k' m.
Proof.
  intros Hne. induction m as [|[k0 v0] m IH]; simpl.
  - destruct (k' =? k)%string eqn:E; [apply String.eqb_eq in E; congruence | reflexivity].
  - destruct (k =? k0)%string eqn:E; simpl.
    + apply String.eqb_eq in E; subst k0.
      destruct (k' =? k)%string eqn:E'; [apply String.eqb_eq in E'; congruence | reflexivity].
    + now rewrite IH.
Qed.

Lemma keys_set_present k v m :
  In k (JsMap.keys m) -> JsMap.keys (JsMap.set k v m) = JsMap.keys m.
Proof.
  induction m as [|[k' v'] m IH]; simpl; [tauto|].
  intros Hin. destruct (k =? k')%string eqn:E; simpl.
  - apply String.eqb_eq in E. now subst.
  - f_equal. apply IH. destruct Hin as [->|]; [|assumption].
    now rewrite String.eqb_refl in E.
Qed.

Lemma keys_set_absent k v m :
  ~ In k (JsMap.keys m) -> JsMap.keys (JsMap.set k v m) = (JsMap.keys m ++ [k])%list.
Proof.
  induction m as [|[k' v'] m IH]; simpl; [reflexivity|].
  intros Hnin. destruct (k =? k')%string eqn:E; simpl.
  - apply String.eqb_eq in E. subst. tauto.
  - f_equal. apply IH. tauto.
Qed.

Lemma get_some_in_keys k v m : JsMap.get k m = Some v -> In k (JsMap.keys m).
Proof.
  induction m as [|[k' v'] m IH]; simpl; [discriminate|].
  destruct (k =? k')%string eqn:E.
  - apply String.eqb_eq in E. auto.
  - auto.
Qed.

Lemma get_none_not_in_keys k m : JsMap.get k m = None -> ~ In k (JsMap.keys m).
Proof.
  induction m as [|[k' v'] m IH]; simpl; [tauto|].
  destruct (k =? k')%string eqn:E; [discriminate|].
  intros H [->|Hin]; [now rewrite String.eqb_refl in E | now apply IH].
Qed.

(** With one entry per key, a key stands before one value only. *)
Lemma wf_unique k v v' m :
  JsMap.wf m -> In (k, v) (JsMap.entries m) -> In (k, v') (JsMap.entries m) -> v = v'.
Proof.
  unfold JsMap.wf, JsMap.entries. induction m as [|[k0 v0] m IH]; simpl; [tauto|].
  intros Hwf. inversion Hwf as [|? ? Hnin Hnd]; subst.
  assert (Hkey : forall u, In (k0, u) m -> False).
  { intros u Hin. apply Hnin. unfold JsMap.keys. apply in_map_iff. now exists (k0, u). }
  intros [H1|H1] [H2|H2].
  - congruence.
  - injection H1 as <- <-. now destruct (Hkey v').
  - injection H2 as <- <-. now destruct (Hkey v).
  - now apply IH.
Qed.

Lemma wf_set k v m : JsMap.wf m -> JsMap.wf (JsMap.set k v m).
Proof.
  unfold JsMap.wf. intros Hwf.
  destruct (in_dec string_dec k (JsMap.keys m)) as [Hin|Hnin].
  - now rewrite keys_set_present.
  - rewrite keys_set_absent by assumption.
    apply NoDup_app; [assumption | repeat constructor; simpl; tauto |].
    intros a Ha [<-|[]]. tauto.
Qed.

Lemma keys_delete_subset k k' m : In k' (JsMap.keys (JsMap.delete k m)) -> In k' (JsMap.keys m).
Proof.
  induction m as [|[k0 v0] m IH]; simpl; [tauto|].
  destruct (k =? k0)%string; simpl; tauto.
Qed.

Lemma wf_delete k m : JsMap.wf m -> JsMap.wf (JsMap.delete k m).
Proof.
  unfold JsMap.wf. induction m as [|[k0 v0] m IH]; simpl; [trivial|].
  intros Hwf. inversion Hwf as [|? ? Hnin Hnd]; subst.
  destruct (k =? k0)%string; simpl; [assumption|].
  constructor; [|auto].
  intros Hin. apply Hnin. eapply keys_delete_subset; eassumption.
Qed.

Lemma delete_at k v pre rest :
  ~ In k (JsMap.keys pre) ->
  JsMap.delete k (pre ++ (k, v) :: rest)%list = (pre ++ rest)%list.
Proof.
  induction pre as [|[k0 v0] pre IH]; simpl.
  - now rewrite String.eqb_refl.
  - intros Hnin. destruct (k =? k0)%string eqn:E.
    + apply String.eqb_eq in E. subst. tauto.
    + f_equal. apply IH. tauto.
Qed.

(** Looking a key up after a filter, in a map with one entry per key. *)
Lemma get_filter (p : string * V -> bool) k m :
  JsMap.wf m ->
  JsMap.get k (filter p m) =
  match JsMap.get k m with
  | Some v => if p (k, v) then Some v else None
  | None => None
  end.
Proof.
  unfold JsMap.wf. induction m as [|[k0 v0] m IH]; simpl; [reflexivity|].
  intros Hwf. inversion Hwf as [|? ? Hnin Hnd]; subst.
  destruct (k =? k0)%string eqn:E.
  - apply String.eqb_eq in E. subst k0.
    destruct (p (k, v0)); simpl.
    + now rewrite String.eqb_refl.
    + rewrite IH by assumption.
      destruct (JsMap.get k m) eqn:G; [|reflexivity].
      exfalso. apply Hnin. eapply get_some_in_keys; eassumption.
  - destruct (p (k0, v0)); simpl; [rewrite E|]; now apply IH.
Qed.

Lemma wf_filter (p : string * V -> bool) m : JsMap.wf m -> JsMap.wf (filter p m).
Proof.
  unfold JsMap.wf. induction m as [|[k0 v0] m IH]; simpl; [trivial|].
  intros Hwf. inversion Hwf as [|? ? Hnin Hnd]; subst.
  destruct (p (k0, v0)); simpl; [|auto].
  constructor; [|auto].
  intros Hin. apply Hnin. unfold JsMap.keys in *.
  apply in_map_iff in Hin. destruct Hin as [[k1 v1] [Hk Hin]].
  apply filter_In in Hin. apply in_map_iff. exists (k1, v1). tauto.
Qed.

End MapFacts.

(* ================================================================== *)
(** * Facts about the sweep *)
(* ================================================================== *)

Section SweepFacts.
Import Js Eff Api.

(** The loop, started anywhere in a map with one entry per key, deletes the
    expired entries among those still to be visited and nothing else. *)
Lemma sweep_loop_filter now pending : forall pre n,
  JsMap.wf (pre ++ pending)%list ->
  sweep_loop now pending (pre ++ pending)%list n =
  ((pre ++ filter (Spec.survives now) pending)%list,
   (n + length (filter (fun kv => Spec.expired now (snd kv)) pending))%nat).
Proof.
  induction pending as [|[key value] rest IH]; intros pre n Hwf.
  - simpl. now rewrite Nat.add_0_r.
  - cbn [sweep_loop filter].
    change (now - timestamp value >? CACHE_DURATION) with (Spec.expired now value).
    change (Spec.survives now (key, value)) with (negb (Spec.expired now value)).
    change (snd (key, value)) with value.
    destruct (Spec.expired now value) eqn:E; cbn [negb].
    + assert (Hnin : ~ In key (JsMap.keys pre)).
      { unfold JsMap.wf, JsMap.keys in Hwf. rewrite map_app in Hwf.
        apply NoDup_remove_2 in Hwf. intros Hin. apply Hwf.
        apply in_or_app. now left. }
      rewrite delete_at by assumption.
      rewrite IH.
      * f_equal. simpl. lia.
      * unfold JsMap.wf, JsMap.keys in *. rewrite map_app in *. simpl in Hwf.
        now apply NoDup_remove_1 in Hwf.
    + replace (pre ++ (key, value) :: rest)%list
        with ((pre ++ [(key, value)]) ++ rest)%list in *
        by (now rewrite <- app_assoc).
      rewrite IH by assumption.
      now rewrite <- app_assoc.
Qed.

Lemma sweep_cache w :
  JsMap.wf (CACHE w) ->
  CACHE (snd (sweep w)) = filter (Spec.survives (clock w)) (CACHE w).
Proof.
  intros Hwf. unfold sweep, bind, Date_now, gets, JsMap.entries.
  pose proof (sweep_loop_filter (clock w) (CACHE w) [] 0%nat Hwf) as Hloop.
  simpl in Hloop. cbv beta. rewrite Hloop.
  unfold modify, when.
  destruct (0 <? _)%nat; reflexivity.
Qed.

Lemma sweep_frame w :
  fst (sweep w) = Normal tt /\
  clock (snd (sweep w)) = clock w /\
  requests (snd (sweep w)) = requests w.
Proof.
  unfold sweep, bind, Date_now, gets. simpl.
  destruct (sweep_loop _ _ _ _) as [c n]. unfold modify, when.
  destruct (0 <? n)%nat; simpl; auto.
Qed.

Lemma sweep_wf w : JsMap.wf (CACHE w) -> JsMap.wf (CACHE (snd (sweep w))).
Proof.
  intros Hwf. rewrite sweep_cache by assumption. now apply wf_filter.
Qed.

End SweepFacts.

(* ================================================================== *)
(** * Facts about [loadMapData] *)
(* ================================================================== *)

Section LoadFacts.
Import Js Eff Api.

Lemma load_hit x url w e :
  JsMap.get url (CACHE w) = Some e ->
  clock w - timestamp e < CACHE_DURATION ->
  loadMapData x url w = (Normal (data e), printed (LogCacheHit url) w).
Proof.
  intros Hget Hage. run_monad. rewrite Hget.
  apply Z.ltb_lt in Hage. now rewrite Hage.
Qed.

Lemma load_miss x url w :
  Spec.cached_fresh url w = false ->
  loadMapData x url w = request x url w.
Proof.
  unfold Spec.cached_fresh, Spec.fresh. intros Hmiss. run_monad.
  destruct (JsMap.get url (CACHE w)) as [e|]; [|reflexivity].
  now rewrite Hmiss.
Qed.

(** The two ways a request ends: it throws what the [catch] block makes of
    some error and leaves the cache as it was, or it returns the parsed body
    of a successful response, stored under the URL at the time of the store. *)
Lemma request_cases x url w :
  requests (snd (request x url w)) = url :: requests w /\
  ((exists err, fst (request x url w) = Throw (rethrown err) /\
                CACHE (snd (request x url w)) = CACHE w)
   \/
   (exists v resp,
      fst (request x url w) = Normal v /\
      fetch_result x = inr resp /\ ok resp = true /\ body_result x = inr v /\
      fetch_ms x <= FETCH_TIMEOUT /\ fetch_ms x + body_ms x <= FETCH_TIMEOUT /\
      clock (snd (request x url w)) = clock w + fetch_ms x + body_ms x /\
      CACHE (snd (request x url w)) =
        JsMap.set url {| data := v; timestamp := clock w + fetch_ms x + body_ms x |} (CACHE w))).
Proof.
  run_monad.
  destruct (FETCH_TIMEOUT <? fetch_ms x) eqn:T1; simpl.
  { split; [reflexivity|]. left. eexists. split; reflexivity. }
  destruct (fetch_result x) as [err|resp] eqn:F; simpl.
  { split; [reflexivity|]. left. eexists. split; reflexivity. }
  destruct (ok resp) eqn:O; simpl.
  2:{ split; [reflexivity|]. left. eexists. split; reflexivity. }
  destruct (FETCH_TIMEOUT <? fetch_ms x + body_ms x) eqn:T2; simpl.
  { split; [reflexivity|]. left. eexists. split; reflexivity. }
  destruct (body_result x) as [err|v] eqn:B; simpl.
  { split; [reflexivity|]. left. eexists. split; reflexivity. }
  split; [reflexivity|]. right. exists v, resp.
  apply Z.ltb_ge in T1, T2.
  unfold with_cache. simpl.
  repeat split; try reflexivity; assumption.
Qed.

(** Every call either is answered from a fresh entry, touching neither the
    network nor the cache, or goes to the network exactly once and ends as
    [request_cases] says. *)
Lemma load_outcomes x url w :
  (Spec.cached_fresh url w = true /\
   exists e, JsMap.get url (CACHE w) = Some e /\
             clock w - timestamp e < CACHE_DURATION /\
             loadMapData x url w = (Normal (data e), printed (LogCacheHit url) w))
  \/
  (Spec.cached_fresh url w = false /\
   loadMapData x url w = request x url w).
Proof.
  destruct (Spec.cached_fresh url w) eqn:Hf.
  - left. split; [reflexivity|].
    unfold Spec.cached_fresh, Spec.fresh in Hf.
    destruct (JsMap.get url (CACHE w)) as [e|] eqn:G; [|discriminate].
    apply Z.ltb_lt in Hf. exists e. repeat split; try assumption.
    now apply load_hit.
  - right. split; [reflexivity|]. now apply load_miss.
Qed.

(** A call that throws leaves the cache as it found it. *)
Lemma load_throw_cache x url w e w' :
  loadMapData x url w = (Throw e, w') -> CACHE w' = CACHE w.
Proof.
  intros Hload.
  destruct (load_outcomes x url w) as [[_ (e0 & _ & _ & Hhit)] | [_ Hmiss]].
  - rewrite Hhit in Hload. discriminate.
  - rewrite Hmiss in Hload.
    destruct (request_cases x url w) as [_ [(err & Hr & Hc) | (v & resp & Hr & _)]];
      rewrite Hload in *; simpl in *; [assumption | discriminate].
Qed.

(** A call changes the cache, if at all, by one [set] under its own URL. *)
Lemma load_cache_cases x url w :
  CACHE (snd (loadMapData x url w)) = CACHE w \/
  exists v, fst (loadMapData x url w) = Normal v /\
            CACHE (snd (loadMapData x url w)) =
              JsMap.set url {| data := v; timestamp := clock (snd (loadMapData x url w)) |}
                (CACHE w).
Proof.
  destruct (load_outcomes x url w) as [[_ (e0 & _ & _ & Hhit)] | [_ Hmiss]].
  - left. now rewrite Hhit.
  - rewrite Hmiss.
    destruct (request_cases x url w)
      as [_ [(err & Hr & Hc) | (v & resp & Hr & _ & _ & _ & _ & _ & Hclock & Hc)]].
    + now left.
    + right. exists v. split; [assumption|]. now rewrite Hclock.
Qed.

Lemma step_wf w ev : JsMap.wf (CACHE w) -> JsMap.wf (CACHE (step w ev)).
Proof.
  intros Hwf. destruct ev as [ms | x url | url v | ]; simpl.
  - assumption.
  - destruct (load_cache_cases x url w) as [-> | (v & _ & ->)];
      [assumption | now apply wf_set].
  - now apply wf_set.
  - now apply sweep_wf.
Qed.

Lemma run_wf evs : forall w, JsMap.wf (CACHE w) -> JsMap.wf (CACHE (run evs w)).
Proof.
  induction evs as [|ev evs IH]; intros w Hwf; simpl; [assumption|].
  apply IH. now apply step_wf.
Qed.

Lemma reachable_wf t0 evs : JsMap.wf (CACHE (run evs (initial t0))).
Proof.
  apply run_wf. constructor.
Qed.

End LoadFacts.

(* ================================================================== *)
(** * The cache: hits, the invariant, failures *)
(* ================================================================== *)

Section CacheProperties.
Import Js Eff Api.

(** C1. A call for a URL whose entry is younger than the five minutes of
    [CACHE_DURATION] returns that entry's payload at once, sends no request
    and leaves the cache as it was. In particular, when a first call went to
    the network and returned, a second call for the same URL made while the
    entry is still younger than five minutes, the cache not having changed in
    between, returns the same payload, and the two calls together sent
    exactly one request. *)
Theorem fresh_entry_served_from_cache :
  (forall x url w e,
     JsMap.get url (CACHE w) = Some e ->
     clock w - timestamp e < 5 * 60 * 1000 ->
     fst (loadMapData x url w) = Normal (data e) /\
     requests (snd (loadMapData x url w)) = requests w /\
     CACHE (snd (loadMapData x url w)) = CACHE w /\
     clock (snd (loadMapData x url w)) = clock w)
  /\
  (forall x1 x2 url w0 v w1 w2,
     Spec.cached_fresh url w0 = false ->
     loadMapData x1 url w0 = (Normal v, w1) ->
     CACHE w2 = CACHE w1 ->
     requests w2 = requests w1 ->
     clock w2 - clock w1 < 5 * 60 * 1000 ->
     fst (loadMapData x2 url w2) = Normal v /\
     requests (snd (loadMapData x2 url w2)) = url :: requests w0 /\
     CACHE (snd (loadMapData x2 url w2)) = CACHE w1).
Proof.
  assert (Hhit : forall x url w e,
     JsMap.get url (CACHE w) = Some e ->
     clock w - timestamp e < 5 * 60 * 1000 ->
     fst (loadMapData x url w) = Normal (data e) /\
     requests (snd (loadMapData x url w)) = requests w /\
     CACHE (snd (loadMapData x url w)) = CACHE w /\
     clock (snd (loadMapData x url w)) = clock w).
  { intros x url w e Hget Hage.
    rewrite (load_hit x url w e Hget Hage). simpl. auto. }
  split; [exact Hhit|].
  intros x1 x2 url w0 v w1 w2 Hmiss Hfirst Hcache Hreqs Hage.
  rewrite (load_miss _ _ _ Hmiss) in Hfirst.
  destruct (request_cases x1 url w0)
    as [Hsent [(err & Hr & _) | (v' & resp & Hr & _ & _ & _ & _ & _ & Hclock & Hc)]];
    rewrite Hfirst in *; simpl in *; [discriminate|].
  injection Hr as <-.
  assert (Hget : JsMap.get url (CACHE w2) = Some {| data := v; timestamp := clock w1 |}).
  { rewrite Hcache, Hc, Hclock. apply get_set_same. }
  destruct (Hhit x2 url w2 _ Hget Hage) as (Hv & Hq & Hc2 & _).
  simpl in Hv. rewrite Hv, Hq, Hc2, Hreqs, Hsent, Hcache. auto.
Qed.

Lemma fresh_entry_served_from_cache_witness :
  (JsMap.get Sample.stats_url (CACHE (advance 299999 Sample.warm))
     = Some {| data := Sample.stats_body; timestamp := 1150 |} /\
   clock (advance 299999 Sample.warm) - 1150 < 5 * 60 * 1000 /\
   fst (loadMapData Sample.offline Sample.stats_url (advance 299999 Sample.warm))
     = Normal Sample.stats_body)
  /\
  (Spec.cached_fresh Sample.stats_url (initial 1000) = false /\
   requests (snd (loadMapData Sample.offline Sample.stats_url (advance 299999 Sample.warm)))
     = [Sample.stats_url]).
Proof.
  split.
  - split; [reflexivity|]. split; [reflexivity|].
    apply (proj1 fresh_entry_served_from_cache Sample.offline Sample.stats_url
             (advance 299999 Sample.warm)
             {| data := Sample.stats_body; timestamp := 1150 |});
      reflexivity.
  - split; [reflexivity|].
    apply (proj2 fresh_entry_served_from_cache (Sample.answered Sample.stats_body)
             Sample.offline Sample.stats_url (initial 1000) Sample.stats_body
             Sample.warm (advance 299999 Sample.warm));
      reflexivity.
Defined.

(** C2. In every state the module can reach, the cache holds at most one
    entry per URL. No entry older than five minutes is ever returned: a
    payload that [loadMapData] returns is either the payload of the entry
    under the URL, whose age at the lookup is strictly below five minutes, no
    request being sent, or the parsed body of the response to the request the
    call has sent. With an entry of age five minutes or more, the call sends a
    request, and returns nothing when that request brings no success response
    or no parsed body. *)
Theorem cache_invariant :
  forall t0 evs,
    NoDup (JsMap.keys (CACHE (run evs (initial t0)))) /\
    (forall url e1 e2,
       In (url, e1) (JsMap.entries (CACHE (run evs (initial t0)))) ->
       In (url, e2) (JsMap.entries (CACHE (run evs (initial t0)))) ->
       e1 = e2) /\
    (forall x url v w',
       loadMapData x url (run evs (initial t0)) = (Normal v, w') ->
       requests w' = requests (run evs (initial t0)) ->
       exists e,
         JsMap.get url (CACHE (run evs (initial t0))) = Some e /\
         data e = v /\
         clock (run evs (initial t0)) - timestamp e < 5 * 60 * 1000) /\
    (forall x url v w',
       loadMapData x url (run evs (initial t0)) = (Normal v, w') ->
       (exists e,
          JsMap.get url (CACHE (run evs (initial t0))) = Some e /\
          data e = v /\
          clock (run evs (initial t0)) - timestamp e < 5 * 60 * 1000 /\
          requests w' = requests (run evs (initial t0)))
       \/
       (requests w' = url :: requests (run evs (initial t0)) /\
        exists r, fetch_result x = inr r /\ ok r = true /\ body_result x = inr v)) /\
    (forall x url e,
       JsMap.get url (CACHE (run evs (initial t0))) = Some e ->
       5 * 60 * 1000 <= clock (run evs (initial t0)) - timestamp e ->
       requests (snd (loadMapData x url (run evs (initial t0))))
         = url :: requests (run evs (initial t0)) /\
       (forall v,
          fst (loadMapData x url (run evs (initial t0))) = Normal v ->
          exists r, fetch_result x = inr r /\ ok r = true /\ body_result x = inr v) /\
       ((forall r, fetch_result x = inr r -> ok r = false) \/
        (forall v, body_result x <> inr v) ->
        exists err, fst (loadMapData x url (run evs (initial t0))) = Throw err)).
Proof.
  intros t0 evs. split; [apply reachable_wf|].
  split; [intros url e1 e2; apply wf_unique, reachable_wf|].
  generalize (run evs (initial t0)). intros w.
  assert (Hfrom : forall x url v w',
            loadMapData x url w = (Normal v, w') ->
            (exists e,
               JsMap.get url (CACHE w) = Some e /\ data e = v /\
               clock w - timestamp e < 5 * 60 * 1000 /\ requests w' = requests w)
            \/
            (requests w' = url :: requests w /\
             exists r, fetch_result x = inr r /\ ok r = true /\ body_result x = inr v)).
  { intros x url v w' Hload.
    destruct (load_outcomes x url w) as [[_ (e & Hget & Hage & Hhit)] | [_ Hmiss]].
    - rewrite Hhit in Hload. injection Hload as <- <-.
      left. exists e. auto.
    - right. rewrite Hmiss in Hload.
      destruct (request_cases x url w)
        as [Hsent [(err & Hr & _) | (v' & resp & Hr & Hf & Ho & Hb & _)]];
        rewrite Hload in *; simpl in *; [discriminate|].
      injection Hr as <-. split; [assumption|]. now exists resp. }
  repeat apply conj.
  - intros x url v w' Hload Hreqs.
    destruct (Hfrom x url v w' Hload) as [(e & Hget & Hdata & Hage & _) | (Hsent & _)].
    + exists e. auto.
    + exfalso. rewrite Hreqs in Hsent.
      apply (f_equal (@length string)) in Hsent. simpl in Hsent. lia.
  - exact Hfrom.
  - intros x url e Hget Hage.
    assert (Hstale : Spec.cached_fresh url w = false).
    { unfold Spec.cached_fresh, Spec.fresh. rewrite Hget. apply Z.ltb_ge.
      unfold CACHE_DURATION. lia. }
    assert (Hbody : forall v,
              fst (loadMapData x url w) = Normal v ->
              exists r, fetch_result x = inr r /\ ok r = true /\ body_result x = inr v).
    { intros v Hret.
      destruct (Hfrom x url v (snd (loadMapData x url w))) as [(e' & Hget' & _ & Hage' & _) | H].
      - rewrite <- Hret. now destruct (loadMapData x url w).
      - rewrite Hget in Hget'. injection Hget' as <-. lia.
      - tauto. }
    repeat apply conj.
    + rewrite (load_miss _ _ _ Hstale). apply request_cases.
    + exact Hbody.
    + intros Hbad.
      destruct (fst (loadMapData x url w)) as [v|err] eqn:Hret; [|now exists err].
      exfalso. destruct (Hbody v eq_refl) as (r & Hf & Ho & Hb).
      destruct Hbad as [Hbad | Hbad].
      * rewrite (Hbad r Hf) in Ho. discriminate.
      * exact (Hbad v Hb).
Qed.

Lemma cache_invariant_witness :
  (exists e,
     JsMap.get Sample.stats_url
       (CACHE (run [Load (Sample.answered Sample.stats_body) Sample.stats_url; Tick 60000; Sweep]
                 (initial 1000))) = Some e /\
     data e = Sample.stats_body /\
     clock (run [Load (Sample.answered Sample.stats_body) Sample.stats_url; Tick 60000; Sweep]
              (initial 1000)) - timestamp e < 5 * 60 * 1000)
  /\
  (JsMap.get Sample.stats_url
     (CACHE (run [Load (Sample.answered Sample.stats_body) Sample.stats_url; Tick 400000]
               (initial 1000)))
     = Some {| data := Sample.stats_body; timestamp := 1150 |} /\
   5 * 60 * 1000
     <= clock (run [Load (Sample.answered Sample.stats_body) Sample.stats_url; Tick 400000]
                 (initial 1000)) - 1150 /\
   (forall v, body_result Sample.html_body <> inr v) /\
   exists err,
     fst (loadMapData Sample.html_body Sample.stats_url
            (run [Load (Sample.answered Sample.stats_body) Sample.stats_url; Tick 400000]
               (initial 1000))) = Throw err).
Proof.
  split.
  - eapply (proj1 (proj2 (proj2 (cache_invariant 1000
                     [Load (Sample.answered Sample.stats_body) Sample.stats_url;
                      Tick 60000; Sweep])))
              Sample.offline Sample.stats_url);
      reflexivity.
  - assert (Hage : 5 * 60 * 1000
                   <= clock (run [Load (Sample.answered Sample.stats_body) Sample.stats_url;
                                  Tick 400000] (initial 1000)) - 1150)
      by discriminate.
    assert (Hbody : forall v, body_result Sample.html_body <> inr v) by discriminate.
    split; [reflexivity|]. split; [exact Hage|]. split; [exact Hbody|].
    apply (proj2 (proj2 (proj2 (proj2 (proj2 (proj2 (cache_invariant 1000
                     [Load (Sample.answered Sample.stats_body) Sample.stats_url;
                      Tick 400000]))))
                   Sample.html_body Sample.stats_url
                   {| data := Sample.stats_body; timestamp := 1150 |} eq_refl Hage))).
    right. exact Hbody.
Defined.

(** C4. A call that fails, whatever the failure (timeout, cancellation, a
    status outside 200-299, a body that does not parse, any other failure of
    the network), leaves the cache exactly as it was before the call; a stale
    entry for the URL is still there. Only a call that returns can have changed
    the cache. *)
Theorem failed_load_leaves_cache :
  forall x url w e w',
    loadMapData x url w = (Throw e, w') ->
    CACHE w' = CACHE w /\
    (forall old, JsMap.get url (CACHE w) = Some old -> JsMap.get url (CACHE w') = Some old).
Proof.
  intros x url w e w' Hload.
  pose proof (load_throw_cache x url w e w' Hload) as Hc.
  split; [assumption|]. intros old. now rewrite Hc.
Qed.

Lemma failed_load_leaves_cache_witness :
  loadMapData Sample.not_found Sample.stats_url (advance 300000 Sample.warm)
    = (Throw (Error "Error del servidor: HTTP 404: Not Found"),
       snd (loadMapData Sample.not_found Sample.stats_url (advance 300000 Sample.warm))) /\
  CACHE (snd (loadMapData Sample.not_found Sample.stats_url (advance 300000 Sample.warm)))
    = CACHE (advance 300000 Sample.warm).
Proof.
  split; [reflexivity|].
  apply (failed_load_leaves_cache Sample.not_found Sample.stats_url
           (advance 300000 Sample.warm)
           (Error "Error del servidor: HTTP 404: Not Found")
           (snd (loadMapData Sample.not_found Sample.stats_url (advance 300000 Sample.warm)))).
  reflexivity.
Defined.

End CacheProperties.

(* ================================================================== *)
(** * Failures *)
(* ================================================================== *)

Section FailureFacts.
Import Js Eff Api.

Lemma starts_with_app s t : starts_with s (s ++ t) = true.
Proof.
  induction s as [|c s IH]; simpl; [reflexivity|].
  now rewrite Ascii.eqb_refl.
Qed.

Lemma includes_prefix needle hay : starts_with needle hay = true -> includes needle hay = true.
Proof.
  intros H. destruct hay; simpl; rewrite H; reflexivity.
Qed.

Lemma includes_app_r needle pre hay :
  includes needle hay = true -> includes needle (pre ++ hay) = true.
Proof.
  intros H. induction pre as [|c pre IH]; simpl; [assumption|].
  rewrite IH. apply orb_true_r.
Qed.

(** A text includes each of the pieces it was put together from. *)
Lemma includes_infix needle pre post : includes needle (pre ++ needle ++ post) = true.
Proof.
  apply includes_app_r, includes_prefix, starts_with_app.
Qed.

(** What the [catch] block throws is a plain [Error] with the message of one
    of the four kinds. *)
Lemma rethrown_kind err :
  exists k inner, rethrown err = Error (Spec.message_of k inner).
Proof.
  unfold rethrown.
  destruct (name err =? "TimeoutError")%string; [now exists Spec.TimeoutError, EmptyString|].
  destruct (name err =? "AbortError")%string; [now exists Spec.CancelledError, EmptyString|].
  destruct (includes "HTTP" (message err)).
  - now exists Spec.ServerError, (message err).
  - now exists Spec.ConnectionError, EmptyString.
Qed.

(** The message tells the kind. *)
Lemma kind_of_message_of k inner : Spec.kind_of (Spec.message_of k inner) = Some k.
Proof.
  destruct k; reflexivity.
Qed.

Lemma rethrown_other err :
  name err <> "TimeoutError" -> name err <> "AbortError" ->
  includes "HTTP" (message err) = false ->
  rethrown err = Error (Spec.connection_message).
Proof.
  intros Ht Ha Hh. unfold rethrown.
  apply String.eqb_neq in Ht, Ha. now rewrite Ht, Ha, Hh.
Qed.

(** What [request] throws, by the way the exchange goes wrong. *)
Lemma request_times_out_waiting x url w :
  FETCH_TIMEOUT < fetch_ms x ->
  fst (request x url w) = Throw (rethrown TimeoutException).
Proof.
  intros Ht. apply Z.ltb_lt in Ht. run_monad. now rewrite Ht.
Qed.

Lemma request_rejected x url w err :
  fetch_ms x <= FETCH_TIMEOUT -> fetch_result x = inl err ->
  fst (request x url w) = Throw (rethrown err).
Proof.
  intros Ht Hf. apply Z.ltb_ge in Ht. run_monad. now rewrite Ht, Hf.
Qed.

Lemma request_bad_status x url w r :
  fetch_ms x <= FETCH_TIMEOUT -> fetch_result x = inr r -> ok r = false ->
  fst (request x url w) =
    Throw (rethrown (Error ("HTTP " ++ N_toString (status r) ++ ": " ++ statusText r))).
Proof.
  intros Ht Hf Ho. apply Z.ltb_ge in Ht. run_monad. now rewrite Ht, Hf, Ho.
Qed.

Lemma request_times_out_reading x url w r :
  fetch_ms x <= FETCH_TIMEOUT -> fetch_result x = inr r -> ok r = true ->
  FETCH_TIMEOUT < fetch_ms x + body_ms x ->
  fst (request x url w) = Throw (rethrown TimeoutException).
Proof.
  intros Ht Hf Ho Hb. apply Z.ltb_ge in Ht. apply Z.ltb_lt in Hb.
  run_monad. now rewrite Ht, Hf, Ho, Hb.
Qed.

Lemma request_unparsed x url w r err :
  fetch_ms x <= FETCH_TIMEOUT -> fetch_result x = inr r -> ok r = true ->
  fetch_ms x + body_ms x <= FETCH_TIMEOUT -> body_result x = inl err ->
  fst (request x url w) = Throw (rethrown err) /\
  CACHE (snd (request x url w)) = CACHE w.
Proof.
  intros Ht Hf Ho Hb Hp. apply Z.ltb_ge in Ht, Hb.
  run_monad. now rewrite Ht, Hf, Ho, Hb, Hp.
Qed.

(** A rejection within the ten seconds, of either promise, is what the
    [catch] block gets. *)
Lemma request_rejected_with x url w err :
  Spec.rejected_with x err -> fst (request x url w) = Throw (rethrown err).
Proof.
  intros [Ht [Hf | (r & Hf & Ho & Hb & Hp)]].
  - now apply request_rejected.
  - now apply (request_unparsed x url w r err).
Qed.

End FailureFacts.

Section FailureProperties.
Import Js Eff Api.

(** C3, as the code has it. Every failure of [loadMapData] is a plain
    [Error] whose message is that of exactly one of four kinds, the messages
    of different kinds never being equal. A request still unsettled after the
    10 seconds of [FETCH_TIMEOUT], while the response is awaited or while its
    body is read, fails as [TimeoutError], and so does one rejected with a
    [TimeoutError]; a request cancelled before completion, that is rejected
    with an [AbortError] while the response is awaited or while its body is
    read, fails as [CancelledError]; a response with a status outside 200-299
    fails as [ServerError], with the status in the message; and any other
    rejection, before the response or while its body is read, fails as
    [ConnectionError] provided its own message does not contain [HTTP], and
    as [ServerError] when it does. *)
Theorem load_failures_normalized :
  (forall x url w e w',
     loadMapData x url w = (Throw e, w') ->
     name e = "Error" /\ exists k inner, message e = Spec.message_of k inner)
  /\
  (forall k1 k2 inner1 inner2,
     Spec.message_of k1 inner1 = Spec.message_of k2 inner2 -> k1 = k2)
  /\
  (forall x url w,
     Spec.cached_fresh url w = false ->
     (10000 < fetch_ms x \/
      exists r, fetch_result x = inr r /\ ok r = true /\ 10000 < fetch_ms x + body_ms x) ->
     fst (loadMapData x url w) = Throw (Error (Spec.timeout_message)))
  /\
  (forall x url w err,
     Spec.cached_fresh url w = false ->
     Spec.rejected_with x err -> name err = "TimeoutError" ->
     fst (loadMapData x url w) = Throw (Error (Spec.timeout_message)))
  /\
  (forall x url w err,
     Spec.cached_fresh url w = false ->
     Spec.rejected_with x err -> name err = "AbortError" ->
     fst (loadMapData x url w) = Throw (Error (Spec.cancelled_message)))
  /\
  (forall x url w r,
     Spec.cached_fresh url w = false ->
     fetch_ms x <= 10000 -> fetch_result x = inr r -> ok r = false ->
     fst (loadMapData x url w) =
       Throw (Error (Spec.server_message
                       ("HTTP " ++ N_toString (status r) ++ ": " ++ statusText r))) /\
     includes (N_toString (status r))
       (Spec.server_message
          ("HTTP " ++ N_toString (status r) ++ ": " ++ statusText r)) = true)
  /\
  (forall x url w err,
     Spec.cached_fresh url w = false ->
     Spec.rejected_with x err ->
     name err <> "TimeoutError" -> name err <> "AbortError" ->
     includes "HTTP" (message err) = false ->
     fst (loadMapData x url w) = Throw (Error (Spec.connection_message)))
  /\
  (forall x url w err,
     Spec.cached_fresh url w = false ->
     Spec.rejected_with x err ->
     name err <> "TimeoutError" -> name err <> "AbortError" ->
     includes "HTTP" (message err) = true ->
     fst (loadMapData x url w) = Throw (Error (Spec.server_message (message err)))).
Proof.
  repeat apply conj.
  - intros x url w e w' Hload.
    destruct (load_outcomes x url w) as [[_ (e0 & _ & _ & Hhit)] | [_ Hmiss]].
    + rewrite Hhit in Hload. discriminate.
    + rewrite Hmiss in Hload.
      destruct (request_cases x url w) as [_ [(err & Hr & _) | (v & resp & Hr & _)]];
        rewrite Hload in Hr; simpl in Hr; [|discriminate].
      injection Hr as ->.
      destruct (rethrown_kind err) as (k & inner & ->).
      split; [reflexivity|]. now exists k, inner.
  - intros k1 k2 inner1 inner2 Heq.
    pose proof (kind_of_message_of k1 inner1) as H1.
    rewrite Heq, kind_of_message_of in H1. congruence.
  - intros x url w Hmiss [Hslow | (r & Hf & Ho & Hslow)]; rewrite (load_miss _ _ _ Hmiss).
    + now apply request_times_out_waiting.
    + destruct (Z.lt_ge_cases FETCH_TIMEOUT (fetch_ms x)) as [Hhead | Hhead].
      * now apply request_times_out_waiting.
      * now apply (request_times_out_reading x url w r).
  - intros x url w err Hmiss Hrej Hname. rewrite (load_miss _ _ _ Hmiss).
    rewrite (request_rejected_with x url w err Hrej).
    unfold rethrown. now rewrite Hname.
  - intros x url w err Hmiss Hrej Hname. rewrite (load_miss _ _ _ Hmiss).
    rewrite (request_rejected_with x url w err Hrej).
    unfold rethrown. now rewrite Hname.
  - intros x url w r Hmiss Ht Hf Ho. rewrite (load_miss _ _ _ Hmiss).
    rewrite (request_bad_status x url w r Ht Hf Ho).
    split; [reflexivity|].
    apply (includes_infix (N_toString (status r)) "Error del servidor: HTTP "
             (": " ++ statusText r)).
  - intros x url w err Hmiss Hrej Hn1 Hn2 Hh. rewrite (load_miss _ _ _ Hmiss).
    rewrite (request_rejected_with x url w err Hrej).
    now rewrite rethrown_other.
  - intros x url w err Hmiss Hrej Hn1 Hn2 Hh. rewrite (load_miss _ _ _ Hmiss).
    rewrite (request_rejected_with x url w err Hrej).
    unfold rethrown. apply String.eqb_neq in Hn1, Hn2. now rewrite Hn1, Hn2, Hh.
Qed.

Lemma load_failures_normalized_witness :
  (loadMapData Sample.not_found Sample.stats_url (initial 0)
     = (Throw (Error "Error del servidor: HTTP 404: Not Found"),
        snd (loadMapData Sample.not_found Sample.stats_url (initial 0))) /\
   exists k inner, "Error del servidor: HTTP 404: Not Found" = Spec.message_of k inner)
  /\
  (10000 < fetch_ms Sample.silent /\
   fst (loadMapData Sample.silent Sample.stats_url (initial 0))
     = Throw (Error "El servidor tardó demasiado en responder"))
  /\
  (Spec.rejected_with Sample.cancelled
     {| name := "AbortError"; message := "The user aborted a request." |} /\
   fst (loadMapData Sample.cancelled Sample.stats_url (initial 0))
     = Throw (Error "La petición fue cancelada"))
  /\
  (Spec.rejected_with Sample.cancelled_reading
     {| name := "AbortError"; message := "The user aborted a request." |} /\
   fst (loadMapData Sample.cancelled_reading Sample.stats_url (initial 0))
     = Throw (Error "La petición fue cancelada"))
  /\
  (ok {| status := 404; statusText := "Not Found" |} = false /\
   includes "404" "Error del servidor: HTTP 404: Not Found" = true)
  /\
  (Spec.rejected_with Sample.offline (TypeError "Failed to fetch") /\
   includes "HTTP" "Failed to fetch" = false /\
   fst (loadMapData Sample.offline Sample.stats_url (initial 0))
     = Throw (Error "Error de conexión. Verifica tu internet."))
  /\
  (Spec.rejected_with Sample.dropped_reading (TypeError "network error") /\
   includes "HTTP" "network error" = false /\
   fst (loadMapData Sample.dropped_reading Sample.stats_url (initial 0))
     = Throw (Error "Error de conexión. Verifica tu internet."))
  /\
  (Spec.rejected_with Sample.redirect_loop (TypeError "too many HTTP redirects") /\
   includes "HTTP" "too many HTTP redirects" = true /\
   fst (loadMapData Sample.redirect_loop Sample.stats_url (initial 0))
     = Throw (Error "Error del servidor: too many HTTP redirects")).
Proof.
  destruct load_failures_normalized
    as (Hkind & _ & Htimeout & _ & Hcancel & Hstatus & Hother & Hprotocol).
  assert (Hin : forall (x : Exchange) err,
            fetch_ms x <= FETCH_TIMEOUT -> fetch_result x = inl err ->
            Spec.rejected_with x err).
  { intros x err Ht Hf. split; [exact Ht | now left]. }
  assert (Hbody : forall (x : Exchange) r err,
            fetch_ms x <= FETCH_TIMEOUT -> fetch_result x = inr r -> ok r = true ->
            fetch_ms x + body_ms x <= FETCH_TIMEOUT -> body_result x = inl err ->
            Spec.rejected_with x err).
  { intros x r err Ht Hf Ho Hb Hp. split; [exact Ht|]. right. now exists r. }
  assert (R1 : Spec.rejected_with Sample.cancelled
                 {| name := "AbortError"; message := "The user aborted a request." |}).
  { apply Hin; [discriminate | reflexivity]. }
  assert (R2 : Spec.rejected_with Sample.cancelled_reading
                 {| name := "AbortError"; message := "The user aborted a request." |}).
  { apply (Hbody _ {| status := 200; statusText := "OK" |});
      try reflexivity; discriminate. }
  assert (R3 : Spec.rejected_with Sample.offline (TypeError "Failed to fetch")).
  { apply Hin; [discriminate | reflexivity]. }
  assert (R4 : Spec.rejected_with Sample.dropped_reading (TypeError "network error")).
  { apply (Hbody _ {| status := 200; statusText := "OK" |});
      try reflexivity; discriminate. }
  assert (R5 : Spec.rejected_with Sample.redirect_loop (TypeError "too many HTTP redirects")).
  { apply Hin; [discriminate | reflexivity]. }
  split.
  { split; [reflexivity|].
    apply (Hkind Sample.not_found Sample.stats_url (initial 0)
             (Error "Error del servidor: HTTP 404: Not Found")
             (snd (loadMapData Sample.not_found Sample.stats_url (initial 0)))).
    reflexivity. }
  split.
  { split; [reflexivity|].
    apply (Htimeout Sample.silent Sample.stats_url (initial 0)); [reflexivity|].
    left. reflexivity. }
  split.
  { split; [exact R1|].
    apply (Hcancel Sample.cancelled Sample.stats_url (initial 0) _ eq_refl R1). reflexivity. }
  split.
  { split; [exact R2|].
    apply (Hcancel Sample.cancelled_reading Sample.stats_url (initial 0) _ eq_refl R2).
    reflexivity. }
  split.
  { split; [reflexivity|].
    apply (Hstatus Sample.not_found Sample.stats_url (initial 0)
             {| status := 404; statusText := "Not Found" |});
      try reflexivity.
    discriminate. }
  split.
  { split; [exact R3|]. split; [reflexivity|].
    apply (Hother Sample.offline Sample.stats_url (initial 0) _ eq_refl R3);
      try reflexivity; discriminate. }
  split.
  { split; [exact R4|]. split; [reflexivity|].
    apply (Hother Sample.dropped_reading Sample.stats_url (initial 0) _ eq_refl R4);
      try reflexivity; discriminate. }
  split; [exact R5|]. split; [reflexivity|].
  apply (Hprotocol Sample.redirect_loop Sample.stats_url (initial 0) _ eq_refl R5);
    try reflexivity; discriminate.
Defined.

(** The claim C3 fails where a rejection that is neither a timeout nor a
    cancellation, and comes with no response at all, carries [HTTP] in its own
    message: it is reported as a server error. *)
Lemma protocol_text_reported_as_server_error :
  Spec.cached_fresh Sample.stats_url (initial 0) = false /\
  fetch_ms Sample.redirect_loop <= FETCH_TIMEOUT /\
  fetch_result Sample.redirect_loop = inl (TypeError "too many HTTP redirects") /\
  fst (loadMapData Sample.redirect_loop Sample.stats_url (initial 0))
    = Throw (Error (Spec.server_message "too many HTTP redirects")) /\
  fst (loadMapData Sample.redirect_loop Sample.stats_url (initial 0))
    <> Throw (Error (Spec.connection_message)).
Proof.
  repeat apply conj; try reflexivity; discriminate.
Qed.

(** C7, as the code has it. A body that does not parse, in a response with a
    success status, is caught by the [catch] block of [loadMapData] like every
    other failure: the caller gets what the block makes of the parse error,
    which is one of the four kinds, and [ConnectionError] when the parse
    error is named neither [TimeoutError] nor [AbortError] and its message
    does not contain [HTTP]. The cache is left as it was. *)
Theorem parse_failure_is_classified :
  forall x url w r err,
    Spec.cached_fresh url w = false ->
    fetch_ms x <= 10000 -> fetch_result x = inr r -> ok r = true ->
    fetch_ms x + body_ms x <= 10000 -> body_result x = inl err ->
    fst (loadMapData x url w) = Throw (rethrown err) /\
    CACHE (snd (loadMapData x url w)) = CACHE w /\
    (exists k inner, rethrown err = Error (Spec.message_of k inner)) /\
    (name err <> "TimeoutError" -> name err <> "AbortError" ->
     includes "HTTP" (message err) = false ->
     fst (loadMapData x url w) = Throw (Error (Spec.connection_message))).
Proof.
  intros x url w r err Hmiss Ht Hf Ho Hb Hp.
  rewrite (load_miss _ _ _ Hmiss).
  destruct (request_unparsed x url w r err Ht Hf Ho Hb Hp) as [Hthrow Hcache].
  repeat apply conj; try assumption.
  - apply rethrown_kind.
  - intros Hn1 Hn2 Hh. now rewrite Hthrow, rethrown_other.
Qed.

Lemma parse_failure_is_classified_witness :
  ok {| status := 200; statusText := "OK" |} = true /\
  body_result Sample.html_body
    = inl {| name := "SyntaxError"; message := "Unexpected token < in JSON at position 0" |} /\
  fst (loadMapData Sample.html_body Sample.stats_url (initial 0))
    = Throw (rethrown {| name := "SyntaxError";
                         message := "Unexpected token < in JSON at position 0" |}).
Proof.
  split; [reflexivity|]. split; [reflexivity|].
  apply (parse_failure_is_classified Sample.html_body Sample.stats_url (initial 0)
           {| status := 200; statusText := "OK" |}
           {| name := "SyntaxError"; message := "Unexpected token < in JSON at position 0" |});
    try reflexivity; discriminate.
Defined.

(** The claim C7 fails on any such response: the caller does not get the
    parse error but a connection error. *)
Lemma parse_failure_reported_as_connection_error :
  ok {| status := 200; statusText := "OK" |} = true /\
  body_result Sample.html_body
    = inl {| name := "SyntaxError"; message := "Unexpected token < in JSON at position 0" |} /\
  fst (loadMapData Sample.html_body Sample.stats_url (initial 0))
    = Throw (Error (Spec.connection_message)) /\
  fst (loadMapData Sample.html_body Sample.stats_url (initial 0))
    <> Throw {| name := "SyntaxError"; message := "Unexpected token < in JSON at position 0" |}.
Proof.
  repeat apply conj; try reflexivity; discriminate.
Qed.

End FailureProperties.

(* ================================================================== *)
(** * Expiry: the sweep, the boundary, the life of an entry *)
(* ================================================================== *)

Section ExpiryProperties.
Import Js Eff Api.

Lemma get_after_sweep w url :
  JsMap.wf (CACHE w) ->
  JsMap.get url (CACHE (snd (sweep w))) =
  match JsMap.get url (CACHE w) with
  | Some e => if Spec.expired (clock w) e then None else Some e
  | None => None
  end.
Proof.
  intros Hwf. rewrite sweep_cache by assumption.
  rewrite get_filter by assumption.
  destruct (JsMap.get url (CACHE w)) as [e|]; [|reflexivity].
  unfold Spec.survives. simpl. now destruct (Spec.expired (clock w) e).
Qed.

Lemma expired_iff now e : Spec.expired now e = true <-> now - timestamp e > CACHE_DURATION.
Proof.
  unfold Spec.expired. rewrite Z.gtb_ltb, Z.ltb_lt. lia.
Qed.

(** C5. The sweep, which [setInterval] runs every 60 seconds, removes from
    the cache exactly the entries whose age at the sweep is above the five
    minutes of [CACHE_DURATION]: an entry that was present is absent afterwards
    if and only if its age was above five minutes; every entry present
    afterwards was present before, unmodified; the entries that stay keep
    their order. *)
Theorem sweep_removes_exactly_expired :
  forall w,
    JsMap.wf (CACHE w) ->
    SWEEP_INTERVAL = 60 * 1000 /\
    (forall url e,
       JsMap.get url (CACHE w) = Some e ->
       (JsMap.get url (CACHE (snd (sweep w))) = None <-> clock w - timestamp e > 5 * 60 * 1000) /\
       (clock w - timestamp e <= 5 * 60 * 1000 ->
        JsMap.get url (CACHE (snd (sweep w))) = Some e)) /\
    (forall url e,
       JsMap.get url (CACHE (snd (sweep w))) = Some e -> JsMap.get url (CACHE w) = Some e) /\
    CACHE (snd (sweep w)) = filter (Spec.survives (clock w)) (CACHE w).
Proof.
  intros w Hwf. split; [reflexivity|]. repeat apply conj.
  - intros url e Hget. rewrite get_after_sweep, Hget by assumption.
    change (5 * 60 * 1000) with CACHE_DURATION.
    destruct (Spec.expired (clock w) e) eqn:E.
    + apply expired_iff in E. split; [tauto | lia].
    + assert (~ clock w - timestamp e > CACHE_DURATION)
        by (rewrite <- expired_iff; congruence).
      split; [split; [discriminate | tauto] | reflexivity].
  - intros url e. rewrite get_after_sweep by assumption.
    destruct (JsMap.get url (CACHE w)) as [e0|]; [|discriminate].
    destruct (Spec.expired (clock w) e0); [discriminate | trivial].
  - now apply sweep_cache.
Qed.

Lemma sweep_removes_exactly_expired_witness :
  JsMap.wf (CACHE (advance 300001 Sample.warm)) /\
  JsMap.get Sample.stats_url (CACHE (advance 300001 Sample.warm))
    = Some {| data := Sample.stats_body; timestamp := 1150 |} /\
  (JsMap.get Sample.stats_url (CACHE (snd (sweep (advance 300001 Sample.warm)))) = None <->
   clock (advance 300001 Sample.warm) - 1150 > 5 * 60 * 1000).
Proof.
  assert (Hwf : JsMap.wf (CACHE (advance 300001 Sample.warm))).
  { repeat constructor. simpl. tauto. }
  split; [exact Hwf|]. split; [reflexivity|].
  apply (proj1 (proj2 (sweep_removes_exactly_expired (advance 300001 Sample.warm) Hwf))
           Sample.stats_url {| data := Sample.stats_body; timestamp := 1150 |}).
  reflexivity.
Defined.

(** C10. An entry whose age is exactly five minutes is stale for
    [loadMapData], which sends a request for its URL instead of returning
    its payload, and is not removed by the sweep: it is still in the cache
    after a sweep, and still not served. *)
Theorem entry_at_boundary :
  forall x url w e,
    JsMap.wf (CACHE w) ->
    JsMap.get url (CACHE w) = Some e ->
    clock w - timestamp e = 5 * 60 * 1000 ->
    loadMapData x url w = request x url w /\
    requests (snd (loadMapData x url w)) = url :: requests w /\
    JsMap.get url (CACHE (snd (sweep w))) = Some e /\
    requests (snd (loadMapData x url (snd (sweep w)))) = url :: requests w.
Proof.
  intros x url w e Hwf Hget Hage.
  assert (Hstale : Spec.cached_fresh url w = false).
  { unfold Spec.cached_fresh, Spec.fresh. rewrite Hget, Hage. reflexivity. }
  assert (Hkept : JsMap.get url (CACHE (snd (sweep w))) = Some e).
  { rewrite get_after_sweep, Hget by assumption.
    unfold Spec.expired. now rewrite Hage. }
  destruct (sweep_frame w) as (_ & Hclock & Hreqs).
  assert (Hstale' : Spec.cached_fresh url (snd (sweep w)) = false).
  { unfold Spec.cached_fresh, Spec.fresh. rewrite Hkept, Hclock, Hage. reflexivity. }
  repeat apply conj.
  - now apply load_miss.
  - rewrite (load_miss _ _ _ Hstale). apply request_cases.
  - assumption.
  - rewrite (load_miss _ _ _ Hstale'), <- Hreqs. apply request_cases.
Qed.

Lemma entry_at_boundary_witness :
  JsMap.get Sample.stats_url (CACHE (advance 300000 Sample.warm))
    = Some {| data := Sample.stats_body; timestamp := 1150 |} /\
  clock (advance 300000 Sample.warm) - 1150 = 5 * 60 * 1000 /\
  requests (snd (loadMapData (Sample.answered Sample.features_body) Sample.stats_url
                   (advance 300000 Sample.warm)))
    = Sample.stats_url :: requests (advance 300000 Sample.warm) /\
  JsMap.get Sample.stats_url (CACHE (snd (sweep (advance 300000 Sample.warm))))
    = Some {| data := Sample.stats_body; timestamp := 1150 |}.
Proof.
  assert (Hwf : JsMap.wf (CACHE (advance 300000 Sample.warm))).
  { repeat constructor. simpl. tauto. }
  destruct (entry_at_boundary (Sample.answered Sample.features_body) Sample.stats_url
              (advance 300000 Sample.warm)
              {| data := Sample.stats_body; timestamp := 1150 |}
              Hwf eq_refl eq_refl) as (_ & Hsent & Hkept & _).
  split; [reflexivity|]. split; [reflexivity|]. split; [exact Hsent | exact Hkept].
Defined.




End ExpiryProperties.

(* ================================================================== *)
(** * The controller: filtering and viewport reloads *)
(* ================================================================== *)

Section ControllerProperties.
Import Js Eff Api App.

(** The attributes the callback reads: those of the record's [properties]
    when that is an object, none otherwise. Reading them never throws. *)
Lemma props_of_record (r : Spec.AntennaRecord) key :
  prop (or_else (lookup_field "properties" r) (JObj [])) key =
  Normal match lookup_field "properties" r with
         | Some (JObj props) => lookup_field key props
         | _ => None
         end.
Proof.
  destruct (lookup_field "properties" r) as [[| b | q | s | items | props]|]; simpl;
    try reflexivity.
  - now destruct b.
  - now destruct (negb (Qnum q =? 0)).
  - now destruct (negb (s =? EmptyString)%string).
Qed.

Lemma differs_record (r : Spec.AntennaRecord) key selection :
  differs (or_else (lookup_field "properties" r) (JObj [])) key selection =
  Normal (negb (Spec.selection_matches selection (Spec.attribute key r))).
Proof.
  unfold differs, Spec.attribute. rewrite props_of_record.
  destruct selection as [|c rest]; [reflexivity|].
  cbn [truthy_string String.eqb negb and_then].
  destruct (lookup_field "properties" r) as [[| b | q | s | items | props]|];
    try reflexivity.
  destruct (lookup_field key props) as [[| b | q | s | items | props']|]; reflexivity.
Qed.

Lemma keeps_record f (r : Spec.AntennaRecord) :
  keeps f (JObj r) =
  Normal (Spec.selection_matches (operador f) (Spec.attribute "operador" r)
          && Spec.selection_matches (tecnologia f) (Spec.attribute "tecnologia" r)).
Proof.
  unfold keeps. cbn [prop and_then]. rewrite !differs_record. cbn [and_then].
  destruct (Spec.selection_matches (operador f) _); cbn [negb andb]; [|reflexivity].
  now destruct (Spec.selection_matches (tecnologia f) _).
Qed.

Lemma filter_records f (records : list Spec.AntennaRecord) :
  Array_filter (keeps f) (map JObj records) = Normal (map JObj (Spec.displayed f records)).
Proof.
  unfold Spec.displayed.
  induction records as [|r records IH]; [reflexivity|].
  cbn [map Array_filter filter]. rewrite keeps_record, IH.
  now destruct (_ && _).
Qed.

Lemma selection_matches_iff selection attr :
  Spec.selection_matches selection attr = true <-> selection = EmptyString \/ attr = Some selection.
Proof.
  destruct selection as [|c rest]; simpl; [tauto|].
  destruct attr as [s|].
  - rewrite String.eqb_eq. split.
    + intros ->. now right.
    + intros [H|H]; [discriminate | congruence].
  - split; [discriminate | intros [H|H]; discriminate].
Qed.

(** C8. For every data set and every pair of selections, the displayed
    subset is the list of the records whose operator matches the operator
    selection and whose technology matches the technology selection, in the
    order of the data set, an empty selection matching every record: a record
    of the data set is displayed if and only if each selection that is not
    empty equals the record's attribute. *)
Theorem filtered_antennas_match_selections :
  forall (records : list Spec.AntennaRecord) (f : Filters),
    filteredAntenas (JArr (map JObj records)) f
      = Normal (map JObj (Spec.displayed f records)) /\
    (forall r,
       In r (Spec.displayed f records) <->
       In r records /\
       (operador f = EmptyString \/ Spec.attribute "operador" r = Some (operador f)) /\
       (tecnologia f = EmptyString \/ Spec.attribute "tecnologia" r = Some (tecnologia f))).
Proof.
  intros records f. split.
  - apply filter_records.
  - intros r. unfold Spec.displayed.
    rewrite filter_In, andb_true_iff, !selection_matches_iff. tauto.
Qed.

(** A reload that throws has not touched the component's state. *)
Lemma reload_throw_ui env x vp p e p' :
  reload env x vp p = (Throw e, p') -> ui p' = ui p.
Proof.
  unfold reload, bind, gets, lift, of_completion, setAntenas, modify.
  destruct (loadMapData x _ (world p)) as [[data|err] w'].
  - destruct (prop data "features") as [features|err]; intros H.
    + discriminate.
    + now injection H as _ <-.
  - intros H. now injection H as _ <-.
Qed.

(** C9. When the reload started by a change of viewport fails, with whatever
    error, [handleViewportChange] completes normally: the error is written to
    the console and goes no further; the component's state is what it was
    before, so the antennas are the prior data set and the error flag is as it
    was. *)
Theorem failed_viewport_reload_keeps_data :
  forall env x vp p e p',
    reload env x vp p = (Throw e, p') ->
    fst (handleViewportChange env x (Some vp) p) = Normal tt /\
    antenas (ui (snd (handleViewportChange env x (Some vp) p))) = antenas (ui p) /\
    error (ui (snd (handleViewportChange env x (Some vp) p))) = error (ui p) /\
    ui (snd (handleViewportChange env x (Some vp) p)) = ui p /\
    console (world (snd (handleViewportChange env x (Some vp) p)))
      = LogViewportError e :: console (world p').
Proof.
  intros env x vp p e p' Hfail.
  pose proof (reload_throw_ui env x vp p e p' Hfail) as Hui.
  unfold handleViewportChange, try_catch. rewrite Hfail.
  unfold lift, console_log, modify. simpl.
  rewrite Hui. auto.
Qed.

Lemma failed_viewport_reload_keeps_data_witness :
  fst (reload None Sample.offline Sample.madrid
         (Sample.page_with [JObj Sample.movistar_5g] Sample.warm))
    = Throw (Error "Error de conexión. Verifica tu internet.") /\
  antenas (ui (snd (handleViewportChange None Sample.offline (Some Sample.madrid)
                      (Sample.page_with [JObj Sample.movistar_5g] Sample.warm))))
    = JArr [JObj Sample.movistar_5g] /\
  error (ui (snd (handleViewportChange None Sample.offline (Some Sample.madrid)
                    (Sample.page_with [JObj Sample.movistar_5g] Sample.warm))))
    = None.
Proof.
  destruct (failed_viewport_reload_keeps_data None Sample.offline Sample.madrid
              (Sample.page_with [JObj Sample.movistar_5g] Sample.warm)
              (Error "Error de conexión. Verifica tu internet.")
              (snd (reload None Sample.offline Sample.madrid
                      (Sample.page_with [JObj Sample.movistar_5g] Sample.warm)))
              eq_refl) as (_ & Hdata & Herror & _).
  split; [reflexivity|]. split; [exact Hdata | exact Herror].
Defined.

End ControllerProperties.

(* ================================================================== *)
(** * Worked examples *)
(* ================================================================== *)

Section Examples.
Import Js Eff Api App.

(** Two loads of the statistics four minutes apart: one request, the same payload. *)
Example two_loads_one_request :
  let w := advance 240000 Sample.warm in
  fst (loadMapData (Sample.answered JNull) Sample.stats_url w) = Normal Sample.stats_body /\
  requests (snd (loadMapData (Sample.answered JNull) Sample.stats_url w)) = [Sample.stats_url].
Proof. split; reflexivity. Qed.

(** A load, six minutes, a second load: two requests, and a later timestamp. *)
Example reload_after_six_minutes :
  let w := snd (loadMapData (Sample.answered Sample.stats_body) Sample.stats_url
                  (advance 360000 Sample.warm)) in
  requests w = [Sample.stats_url; Sample.stats_url] /\
  JsMap.get Sample.stats_url (CACHE w)
    = Some {| data := Sample.stats_body; timestamp := 361300 |}.
Proof. split; reflexivity. Qed.

(** The URL for a viewport at zoom 12 with both selections set. *)
Example url_of_madrid :
  viewport_url None {| operador := "Orange España"; tecnologia := "5G"; viewport := None |}
    Sample.madrid
  = "https://your-api.railway.app/map/antenas?bbox=-3.8%2C40.3%2C-3.5%2C40.6&zoom=12&operador=Orange+Espa%C3%B1a&tecnologia=5G".
Proof. reflexivity. Qed.

(** The URL for a viewport at zoom 6, no selection, with a configured base. *)
Example url_of_peninsula :
  viewport_url (Some "http://localhost:8000")
    {| operador := EmptyString; tecnologia := EmptyString; viewport := None |}
    {| bbox := ["-9.5"; "36"; "3.3"; "43.8"]; zoom := 6 |}
  = "http://localhost:8000/map/clusters?bbox=-9.5%2C36%2C3.3%2C43.8&zoom=6".
Proof. reflexivity. Qed.

(** A record without [properties] passes only empty selections. *)
Example unlabelled_record_filtered_out :
  filteredAntenas (JArr [JObj Sample.movistar_5g; JObj Sample.vodafone_4g; JObj Sample.unlabelled])
    {| operador := "Movistar"; tecnologia := EmptyString; viewport := None |}
  = Normal [JObj Sample.movistar_5g].
Proof. reflexivity. Qed.

(** A payload that is [null] makes the reload fail after the load has
    succeeded; the failure is swallowed like any other. *)
Example null_payload_swallowed :
  let p := Sample.page_with [JObj Sample.movistar_5g] (initial 0) in
  fst (handleViewportChange None (Sample.answered JNull) (Some Sample.madrid) p) = Normal tt /\
  ui (snd (handleViewportChange None (Sample.answered JNull) (Some Sample.madrid) p)) = ui p.
Proof. split; reflexivity. Qed.

(** A successful reload replaces the data set. *)
Example reload_replaces_data :
  let p := Sample.page_with [JObj Sample.unlabelled] (initial 0) in
  antenas (ui (snd (handleViewportChange None (Sample.answered Sample.features_body)
                      (Some Sample.madrid) p)))
  = JArr [JObj Sample.movistar_5g; JObj Sample.vodafone_4g].
Proof. reflexivity. Qed.

End Examples.

(* ================================================================== *)
(** * More about [loadMapData] *)
(* ================================================================== *)

Section LoadMore.
Import Js Eff Api.

(** What a request yields does not depend on the state it starts from. *)
Lemma request_result_indep x url w w' :
  fst (request x url w) = fst (request x url w').
Proof.
  run_monad.
  destruct (FETCH_TIMEOUT <? fetch_ms x); [reflexivity|].
  destruct (fetch_result x) as [err|resp]; [reflexivity|].
  destruct (ok resp); simpl; [|reflexivity].
  destruct (FETCH_TIMEOUT <? fetch_ms x + body_ms x); [reflexivity|].
  destruct (body_result x); reflexivity.
Qed.

(** A request returns exactly when the response came in time with a success
    status and its body was read and parsed in time. *)
Lemma request_returns_iff x url w v :
  fst (request x url w) = Normal v <->
  fetch_ms x <= FETCH_TIMEOUT /\
  (exists r, fetch_result x = inr r /\ ok r = true) /\
  fetch_ms x + body_ms x <= FETCH_TIMEOUT /\
  body_result x = inr v.
Proof.
  split.
  - intros Hret.
    destruct (request_cases x url w)
      as [_ [(err & Hr & _) | (v' & resp & Hr & Hf & Ho & Hb & Ht1 & Ht2 & _)]];
      rewrite Hret in Hr; [discriminate|].
    injection Hr as <-. repeat split; try assumption. now exists resp.
  - intros (Ht1 & (r & Hf & Ho) & Ht2 & Hb).
    apply Z.ltb_ge in Ht1, Ht2. run_monad.
    now rewrite Ht1, Hf, Ho, Ht2, Hb.
Qed.

(** X1. [loadMapData] returns a payload in two cases only: the entry under
    the URL is younger than five minutes, and the payload is that entry's; or
    there is no such entry, the response arrives within the ten seconds with
    a status in 200-299, and its body is read and parsed within the ten
    seconds, and the payload is the parsed body. In particular a stale entry
    is never a fallback for a request that fails. *)
Theorem load_returns_iff :
  forall x url w v,
    fst (loadMapData x url w) = Normal v <->
    (exists e, JsMap.get url (CACHE w) = Some e /\
               clock w - timestamp e < CACHE_DURATION /\ data e = v)
    \/
    (Spec.cached_fresh url w = false /\
     fetch_ms x <= FETCH_TIMEOUT /\
     (exists r, fetch_result x = inr r /\ ok r = true) /\
     fetch_ms x + body_ms x <= FETCH_TIMEOUT /\
     body_result x = inr v).
Proof.
  intros x url w v.
  destruct (load_outcomes x url w) as [[Hfresh (e & Hget & Hage & Hhit)] | [Hstale Hmiss]].
  - rewrite Hhit. simpl. split.
    + intros H. injection H as <-. left. now exists e.
    + intros [(e' & Hget' & _ & <-) | (Hstale & _)]; [congruence | congruence].
  - rewrite Hmiss, request_returns_iff. split.
    + intros H. right. tauto.
    + intros [(e & Hget & Hage & _) | H]; [|tauto].
      exfalso. unfold Spec.cached_fresh, Spec.fresh in Hstale.
      rewrite Hget in Hstale. apply Z.ltb_ge in Hstale. lia.
Qed.

(** X2. A call changes no entry but the one under its own URL, whatever its
    outcome: every other URL has after the call the entry it had before; the
    keys that were in the cache keep their order, and a new key comes last. *)
Theorem load_touches_own_entry_only :
  forall x url w,
    (forall k, k <> url ->
               JsMap.get k (CACHE (snd (loadMapData x url w))) = JsMap.get k (CACHE w)) /\
    (JsMap.keys (CACHE (snd (loadMapData x url w))) = JsMap.keys (CACHE w) \/
     JsMap.keys (CACHE (snd (loadMapData x url w))) = (JsMap.keys (CACHE w) ++ [url])%list).
Proof.
  intros x url w.
  destruct (load_cache_cases x url w) as [Hc | (v & _ & Hc)]; rewrite Hc.
  - split; [reflexivity | now left].
  - split.
    + intros k Hk. apply get_set_other. congruence.
    + destruct (in_dec string_dec url (JsMap.keys (CACHE w))) as [Hin | Hnin].
      * left. now apply keys_set_present.
      * right. now apply keys_set_absent.
Qed.

Lemma load_touches_own_entry_only_witness :
  Sample.stats_url <> "https://your-api.railway.app/map/antenas?limit=200" /\
  JsMap.get Sample.stats_url
    (CACHE (snd (loadMapData (Sample.answered Sample.features_body)
                   "https://your-api.railway.app/map/antenas?limit=200" Sample.warm)))
    = JsMap.get Sample.stats_url (CACHE Sample.warm).
Proof.
  assert (Hne : Sample.stats_url <> "https://your-api.railway.app/map/antenas?limit=200")
    by discriminate.
  split; [exact Hne|].
  apply (proj1 (load_touches_own_entry_only (Sample.answered Sample.features_body)
                  "https://your-api.railway.app/map/antenas?limit=200" Sample.warm)).
  intros H. apply Hne. now symmetry.
Defined.

(** The request of a call is the sending followed by the completion. *)
Lemma request_is_finish x url w :
  request x url w = Async.finish x url (clock w) (sent url (printed (LogApiCall url) w)).
Proof.
  unfold Async.finish, Async.settlement, Async.settles_after, Async.at_time.
  unfold request, fetch, Response_json, try_catch, bind, ret, throw,
    when, gets, modify, Date_now, CACHE_set, console_log,
    advance, sent, printed, with_cache.
  cbn -[Z.add Z.sub Z.ltb FETCH_TIMEOUT rethrown N_toString String.append].
  destruct (FETCH_TIMEOUT <? fetch_ms x) eqn:T1;
    cbn -[Z.add Z.sub Z.ltb FETCH_TIMEOUT rethrown N_toString String.append];
    [reflexivity|].
  destruct (fetch_result x) as [err|resp];
    cbn -[Z.add Z.sub Z.ltb FETCH_TIMEOUT rethrown N_toString String.append];
    [reflexivity|].
  destruct (ok resp);
    cbn -[Z.add Z.sub Z.ltb FETCH_TIMEOUT rethrown N_toString String.append];
    [|reflexivity].
  destruct (FETCH_TIMEOUT <? fetch_ms x + body_ms x) eqn:T2;
    cbn -[Z.add Z.sub Z.ltb FETCH_TIMEOUT rethrown N_toString String.append].
  - replace (clock w + fetch_ms x + (FETCH_TIMEOUT - fetch_ms x))
      with (clock w + FETCH_TIMEOUT) by lia.
    reflexivity.
  - rewrite <- Z.add_assoc.
    destruct (body_result x);
      cbn -[Z.add Z.sub Z.ltb FETCH_TIMEOUT rethrown N_toString String.append];
      reflexivity.
Qed.

Lemma settles_within_timeout x : Async.settles_after x <= FETCH_TIMEOUT.
Proof.
  unfold Async.settles_after.
  destruct (FETCH_TIMEOUT <? fetch_ms x) eqn:T1; [lia|]. apply Z.ltb_ge in T1.
  destruct (fetch_result x) as [err|resp]; [assumption|].
  destruct (negb (ok resp)); [assumption|].
  destruct (FETCH_TIMEOUT <? fetch_ms x + body_ms x) eqn:T2; [lia|].
  now apply Z.ltb_ge in T2.
Qed.

Lemma request_clock x url w :
  clock (snd (request x url w)) = clock w + Async.settles_after x.
Proof.
  rewrite request_is_finish.
  unfold Async.finish, bind, modify, Async.at_time.
  cbn -[Z.add Async.settles_after Async.settlement rethrown].
  destruct (Async.settlement x); reflexivity.
Qed.

(** X4. A call answered from the cache sends no request and takes no time;
    every other call sends exactly one request, for its own URL, and is over
    within the ten seconds of [FETCH_TIMEOUT], however slow the network. *)
Theorem load_requests_and_duration :
  forall x url w,
    (Spec.cached_fresh url w = true ->
     requests (snd (loadMapData x url w)) = requests w /\
     clock (snd (loadMapData x url w)) = clock w) /\
    (Spec.cached_fresh url w = false ->
     requests (snd (loadMapData x url w)) = url :: requests w /\
     clock (snd (loadMapData x url w)) - clock w <= 10000).
Proof.
  intros x url w. split; intros Hf.
  - destruct (load_outcomes x url w) as [[_ (e & _ & _ & Hhit)] | [Hstale _]];
      [|congruence].
    now rewrite Hhit.
  - rewrite (load_miss _ _ _ Hf). split; [apply request_cases|].
    rewrite request_clock.
    pose proof (settles_within_timeout x) as Hle. unfold FETCH_TIMEOUT in Hle. lia.
Qed.

Lemma load_requests_and_duration_witness :
  Spec.cached_fresh Sample.stats_url (initial 0) = false /\
  requests (snd (loadMapData Sample.silent Sample.stats_url (initial 0))) = [Sample.stats_url] /\
  clock (snd (loadMapData Sample.silent Sample.stats_url (initial 0))) - 0 <= 10000.
Proof.
  split; [reflexivity|].
  apply (proj2 (load_requests_and_duration Sample.silent Sample.stats_url (initial 0))).
  reflexivity.
Defined.

End LoadMore.

(* ================================================================== *)
(** * More about the sweep *)
(* ================================================================== *)

Section SweepMore.
Import Js Eff Api.

Lemma filter_split {A} (p : A -> bool) (l : list A) :
  length l = (length (filter p l) + length (filter (fun a => negb (p a)) l))%nat.
Proof.
  induction l as [|a l IH]; simpl; [reflexivity|].
  destruct (p a); simpl; lia.
Qed.

Lemma filter_twice {A} (p : A -> bool) (l : list A) : filter p (filter p l) = filter p l.
Proof.
  induction l as [|a l IH]; simpl; [reflexivity|].
  destruct (p a) eqn:E; simpl; [rewrite E; now f_equal | assumption].
Qed.

Lemma filter_none {A} (p q : A -> bool) (l : list A) :
  (forall a, p a = true -> q a = false) -> filter q (filter p l) = [].
Proof.
  intros Hpq. induction l as [|a l IH]; simpl; [reflexivity|].
  destruct (p a) eqn:E; simpl; [rewrite (Hpq a E)|]; assumption.
Qed.

(** The sweep, in one step: the entries that survive, and the line printed
    when some did not. *)
Lemma sweep_run w :
  JsMap.wf (CACHE w) ->
  sweep w =
  (Normal tt,
   let gone := length (filter (fun kv => Spec.expired (clock w) (snd kv)) (CACHE w)) in
   let w' := with_cache (filter (Spec.survives (clock w)) (CACHE w)) w in
   if (0 <? gone)%nat then printed (LogCacheCleaned gone) w' else w').
Proof.
  intros Hwf. unfold sweep, bind, Date_now, gets, JsMap.entries.
  pose proof (sweep_loop_filter (clock w) (CACHE w) [] 0%nat Hwf) as Hloop.
  simpl in Hloop. cbv beta. rewrite Hloop.
  unfold modify, when, console_log, modify, ret. cbv zeta.
  destruct (0 <? _)%nat; reflexivity.
Qed.

Lemma cached_fresh_after_sweep url w :
  JsMap.wf (CACHE w) ->
  Spec.cached_fresh url (snd (sweep w)) = Spec.cached_fresh url w.
Proof.
  intros Hwf. unfold Spec.cached_fresh.
  destruct (sweep_frame w) as (_ & -> & _).
  rewrite get_after_sweep by assumption.
  destruct (JsMap.get url (CACHE w)) as [e|]; [|reflexivity].
  destruct (Spec.expired (clock w) e) eqn:E; [|reflexivity].
  apply expired_iff in E. symmetry. unfold Spec.fresh. apply Z.ltb_ge. lia.
Qed.

(** X5. The sweep makes no difference to what a call returns or throws, nor
    to whether it sends a request: the entries it removes are entries that
    [loadMapData] would not have served. *)
Theorem sweep_is_transparent_to_load :
  forall x url w,
    JsMap.wf (CACHE w) ->
    fst (loadMapData x url (snd (sweep w))) = fst (loadMapData x url w) /\
    requests (snd (loadMapData x url (snd (sweep w)))) = requests (snd (loadMapData x url w)).
Proof.
  intros x url w Hwf.
  pose proof (cached_fresh_after_sweep url w Hwf) as Hsame.
  destruct (sweep_frame w) as (_ & Hclock & Hreqs).
  destruct (load_outcomes x url w) as [[Hfresh (e & Hget & Hage & Hhit)] | [Hstale Hmiss]].
  - assert (Hget' : JsMap.get url (CACHE (snd (sweep w))) = Some e).
    { rewrite get_after_sweep, Hget by assumption.
      destruct (Spec.expired (clock w) e) eqn:E; [|reflexivity].
      apply expired_iff in E. lia. }
    rewrite (load_hit x url (snd (sweep w)) e Hget') by (rewrite Hclock; assumption).
    rewrite Hhit. simpl. auto.
  - rewrite Hstale in Hsame.
    rewrite (load_miss _ _ _ Hsame), Hmiss. split.
    + apply request_result_indep.
    + destruct (request_cases x url (snd (sweep w))) as [-> _].
      destruct (request_cases x url w) as [-> _]. now rewrite Hreqs.
Qed.

Lemma sweep_is_transparent_to_load_witness :
  JsMap.wf (CACHE (advance 400000 Sample.warm)) /\
  fst (loadMapData Sample.offline Sample.stats_url (snd (sweep (advance 400000 Sample.warm))))
    = fst (loadMapData Sample.offline Sample.stats_url (advance 400000 Sample.warm)).
Proof.
  assert (Hwf : JsMap.wf (CACHE (advance 400000 Sample.warm))).
  { repeat constructor. simpl. tauto. }
  split; [exact Hwf|].
  apply (sweep_is_transparent_to_load Sample.offline Sample.stats_url
           (advance 400000 Sample.warm) Hwf).
Defined.

(** X6. A sweep prints one line exactly when it has removed something, with
    the number of entries removed, and prints nothing otherwise; a second
    sweep at the same time removes nothing and prints nothing. *)
Theorem sweep_reports_what_it_removed :
  forall w,
    JsMap.wf (CACHE w) ->
    (length (CACHE (snd (sweep w))) = length (CACHE w) ->
     console (snd (sweep w)) = console w) /\
    (length (CACHE (snd (sweep w))) <> length (CACHE w) ->
     console (snd (sweep w)) =
       LogCacheCleaned (length (CACHE w) - length (CACHE (snd (sweep w)))) :: console w) /\
    CACHE (snd (sweep (snd (sweep w)))) = CACHE (snd (sweep w)) /\
    console (snd (sweep (snd (sweep w)))) = console (snd (sweep w)).
Proof.
  intros w Hwf.
  assert (Hlog : forall w0, JsMap.wf (CACHE w0) ->
            (length (CACHE (snd (sweep w0))) = length (CACHE w0) ->
             console (snd (sweep w0)) = console w0) /\
            (length (CACHE (snd (sweep w0))) <> length (CACHE w0) ->
             console (snd (sweep w0)) =
               LogCacheCleaned (length (CACHE w0) - length (CACHE (snd (sweep w0))))
               :: console w0)).
  { intros w0 Hwf0. rewrite (sweep_run w0 Hwf0). cbv zeta.
    pose proof (filter_split (Spec.survives (clock w0)) (CACHE w0)) as Hsplit.
    assert (Hneg : filter (fun a => negb (Spec.survives (clock w0) a)) (CACHE w0)
                   = filter (fun kv => Spec.expired (clock w0) (snd kv)) (CACHE w0)).
    { apply filter_ext. intros a. unfold Spec.survives. apply negb_involutive. }
    rewrite Hneg in Hsplit.
    set (gone := length (filter (fun kv => Spec.expired (clock w0) (snd kv)) (CACHE w0))) in *.
    destruct (0 <? gone)%nat eqn:G; simpl.
    - apply Nat.ltb_lt in G. split; [lia|]. intros _. do 2 f_equal. lia.
    - apply Nat.ltb_ge in G. split; [reflexivity | lia]. }
  destruct (Hlog w Hwf) as [Hsame Hdiff].
  assert (Hagain : CACHE (snd (sweep (snd (sweep w)))) = CACHE (snd (sweep w))).
  { destruct (sweep_frame w) as (_ & Hclock & _).
    rewrite (sweep_cache (snd (sweep w))) by now apply sweep_wf.
    rewrite Hclock, sweep_cache by assumption. apply filter_twice. }
  repeat apply conj; try assumption.
  apply (Hlog (snd (sweep w)) (sweep_wf w Hwf)). now rewrite Hagain.
Qed.

Lemma sweep_reports_what_it_removed_witness :
  JsMap.wf (CACHE (advance 400000 Sample.warm)) /\
  length (CACHE (snd (sweep (advance 400000 Sample.warm))))
    <> length (CACHE (advance 400000 Sample.warm)) /\
  console (snd (sweep (advance 400000 Sample.warm)))
    = LogCacheCleaned 1 :: console (advance 400000 Sample.warm).
Proof.
  assert (Hwf : JsMap.wf (CACHE (advance 400000 Sample.warm))).
  { repeat constructor. simpl. tauto. }
  assert (Hlen : length (CACHE (snd (sweep (advance 400000 Sample.warm))))
                 <> length (CACHE (advance 400000 Sample.warm))) by discriminate.
  split; [exact Hwf|]. split; [exact Hlen|].
  apply (proj1 (proj2 (sweep_reports_what_it_removed (advance 400000 Sample.warm) Hwf)) Hlen).
Defined.

End SweepMore.

(* ================================================================== *)
(** * Invariants of histories *)
(* ================================================================== *)

Section HistoryMore.
Import Js Eff Api.

Lemma keys_set_in {V} k k' (v : V) m :
  In k' (JsMap.keys (JsMap.set k v m)) -> k' = k \/ In k' (JsMap.keys m).
Proof.
  destruct (in_dec string_dec k (JsMap.keys m)) as [Hin | Hnin].
  - rewrite keys_set_present by assumption. tauto.
  - rewrite keys_set_absent by assumption. intros H.
    apply in_app_or in H. destruct H as [H | [<- | []]]; tauto.
Qed.

Lemma entries_set_in {V} k k' (v v' : V) m :
  In (k', v') (JsMap.set k v m) -> (k', v') = (k, v) \/ In (k', v') m.
Proof.
  induction m as [|[k0 v0] m IH]; simpl.
  - intros [H | []]. left. now symmetry.
  - destruct (k =? k0)%string; simpl.
    + intros [H | H]; [left; now symmetry | tauto].
    + intros [H | H]; [tauto | destruct (IH H); tauto].
Qed.

Lemma get_in_entries {V} k (v : V) m : JsMap.get k m = Some v -> In (k, v) m.
Proof.
  induction m as [|[k0 v0] m IH]; simpl; [discriminate|].
  destruct (String.eqb_spec k k0) as [->|Hne].
  - intros H. injection H as ->. now left.
  - intros H. right. now apply IH.
Qed.

Lemma step_keeps_requested w ev :
  Trace.whole ev = true -> JsMap.wf (CACHE w) -> Trace.requested w -> Trace.requested (step w ev).
Proof.
  intros Hwhole Hwf Hinv. destruct ev as [ms | x url | url v | ]; simpl in *.
  - exact Hinv.
  - destruct (load_outcomes x url w) as [[_ (e & _ & _ & Hhit)] | [_ Hmiss]].
    + rewrite Hhit. exact Hinv.
    + rewrite Hmiss.
      destruct (request_cases x url w)
        as [Hsent [(err & _ & Hc) | (v & resp & _ & _ & _ & _ & _ & _ & _ & Hc)]];
        intros k Hk; rewrite Hsent, Hc in *.
      * right. now apply Hinv.
      * apply keys_set_in in Hk. destruct Hk as [-> | Hk]; [now left | right; now apply Hinv].
  - discriminate.
  - intros k Hk. destruct (sweep_frame w) as (_ & _ & ->).
    rewrite sweep_cache in Hk by assumption. apply Hinv.
    unfold JsMap.keys in *. apply in_map_iff in Hk. destruct Hk as [[k1 e1] [<- Hin]].
    apply filter_In in Hin. apply in_map_iff. exists (k1, e1). tauto.
Qed.

Lemma run_requested evs : forall w,
  forallb Trace.whole evs = true -> JsMap.wf (CACHE w) -> Trace.requested w ->
  Trace.requested (run evs w).
Proof.
  induction evs as [|ev evs IH]; intros w Hall Hwf Hinv; simpl in *; [assumption|].
  apply andb_true_iff in Hall. destruct Hall as [Hev Hall].
  apply IH; [assumption | now apply step_wf | now apply step_keeps_requested].
Qed.

(** X7. In a history made of whole calls, sweeps and the passing of time, the
    cache never holds a URL that was not handed to [fetch]: entries come from
    requests of the module only. *)
Theorem cached_urls_were_requested :
  forall t0 evs,
    forallb Trace.whole evs = true ->
    forall url e,
      JsMap.get url (CACHE (run evs (initial t0))) = Some e ->
      In url (requests (run evs (initial t0))).
Proof.
  intros t0 evs Hall url e Hget.
  apply (run_requested evs (initial t0) Hall).
  - constructor.
  - intros k [].
  - eapply get_some_in_keys; eassumption.
Qed.

Lemma cached_urls_were_requested_witness :
  forallb Trace.whole
    [Load (Sample.answered Sample.stats_body) Sample.stats_url; Tick 1000; Sweep] = true /\
  In Sample.stats_url
    (requests (run [Load (Sample.answered Sample.stats_body) Sample.stats_url; Tick 1000; Sweep]
                 (initial 0))).
Proof.
  split; [reflexivity|].
  apply (cached_urls_were_requested 0
           [Load (Sample.answered Sample.stats_body) Sample.stats_url; Tick 1000; Sweep]
           eq_refl Sample.stats_url {| data := Sample.stats_body; timestamp := 150 |}).
  reflexivity.
Defined.

Lemma settles_after_nonneg x :
  0 <= fetch_ms x -> 0 <= body_ms x -> 0 <= Async.settles_after x.
Proof.
  intros Hf Hb. unfold Async.settles_after, FETCH_TIMEOUT.
  destruct (10000 <? fetch_ms x); [lia|].
  destruct (fetch_result x) as [err|resp]; [assumption|].
  destruct (negb (ok resp)); [assumption|].
  destruct (10000 <? fetch_ms x + body_ms x); lia.
Qed.

Lemma step_keeps_not_ahead w ev :
  Trace.forward ev = true -> JsMap.wf (CACHE w) -> Trace.not_ahead w -> Trace.not_ahead (step w ev).
Proof.
  intros Hfw Hwf Hinv. destruct ev as [ms | x url | url v | ]; simpl in *.
  - apply Z.leb_le in Hfw. intros k e Hin. simpl. specialize (Hinv k e Hin). lia.
  - apply andb_true_iff in Hfw. destruct Hfw as [Hf Hb]. apply Z.leb_le in Hf, Hb.
    destruct (load_outcomes x url w) as [[_ (e & _ & _ & Hhit)] | [_ Hmiss]].
    + rewrite Hhit. exact Hinv.
    + rewrite Hmiss. intros k e Hin.
      pose proof (request_clock x url w) as Hclock.
      pose proof (settles_after_nonneg x Hf Hb) as Hpos.
      destruct (request_cases x url w)
        as [_ [(err & _ & Hc) | (v & resp & _ & _ & _ & _ & _ & _ & Hclock' & Hc)]];
        rewrite Hc in Hin.
      * specialize (Hinv k e Hin). lia.
      * apply entries_set_in in Hin. destruct Hin as [Heq | Hin].
        -- injection Heq as _ ->. simpl. lia.
        -- specialize (Hinv k e Hin). lia.
  - intros k e Hin. unfold bind, Date_now, gets, CACHE_set, modify in Hin. simpl in *.
    apply entries_set_in in Hin. destruct Hin as [Heq | Hin].
    + injection Heq as _ ->. simpl. lia.
    + exact (Hinv k e Hin).
  - intros k e Hin. destruct (sweep_frame w) as (_ & -> & _).
    rewrite sweep_cache in Hin by assumption.
    apply filter_In in Hin. exact (Hinv k e (proj1 Hin)).
Qed.

Lemma run_not_ahead evs : forall w,
  forallb Trace.forward evs = true -> JsMap.wf (CACHE w) -> Trace.not_ahead w ->
  Trace.not_ahead (run evs w).
Proof.
  induction evs as [|ev evs IH]; intros w Hall Hwf Hinv; simpl in *; [assumption|].
  apply andb_true_iff in Hall. destruct Hall as [Hev Hall].
  apply IH; [assumption | now apply step_wf | now apply step_keeps_not_ahead].
Qed.

(** X8. As long as the clock does not run backwards (no negative lapse of
    time, no negative duration of an exchange), no entry carries a timestamp
    later than the current time: the age [loadMapData] and the sweep compute
    is never negative. *)
Theorem entries_are_not_from_the_future :
  forall t0 evs,
    forallb Trace.forward evs = true ->
    forall url e,
      JsMap.get url (CACHE (run evs (initial t0))) = Some e ->
      0 <= clock (run evs (initial t0)) - timestamp e.
Proof.
  intros t0 evs Hall url e Hget.
  assert (H : timestamp e <= clock (run evs (initial t0))); [|lia].
  apply (run_not_ahead evs (initial t0) Hall) with (k := url).
  - constructor.
  - intros k e0 [].
  - now apply get_in_entries.
Qed.

Lemma entries_are_not_from_the_future_witness :
  forallb Trace.forward
    [Load (Sample.answered Sample.stats_body) Sample.stats_url; Tick 1000; Sweep] = true /\
  0 <= clock (run [Load (Sample.answered Sample.stats_body) Sample.stats_url; Tick 1000; Sweep]
            (initial 0)) - 150.
Proof.
  split; [reflexivity|].
  apply (entries_are_not_from_the_future 0
           [Load (Sample.answered Sample.stats_body) Sample.stats_url; Tick 1000; Sweep]
           eq_refl Sample.stats_url {| data := Sample.stats_body; timestamp := 150 |}).
  reflexivity.
Defined.

End HistoryMore.

(* ================================================================== *)
(** * The URL of a viewport *)
(* ================================================================== *)

Section UrlMore.
Import Js Eff Api App.

Lemma decode_head_encode c rest :
  Query.decode_head (form_encode (String c rest)) = Some (c, form_encode rest).
Proof.
  destruct c as [[] [] [] [] [] [] [] []]; reflexivity.
Qed.

Lemma form_encode_inj : forall s s', form_encode s = form_encode s' -> s = s'.
Proof.
  induction s as [|c s IH]; intros [|c' s'] Heq.
  - reflexivity.
  - apply (f_equal Query.decode_head) in Heq. rewrite decode_head_encode in Heq. discriminate.
  - apply (f_equal Query.decode_head) in Heq. rewrite decode_head_encode in Heq. discriminate.
  - apply (f_equal Query.decode_head) in Heq. rewrite !decode_head_encode in Heq.
    injection Heq as -> Hrest. f_equal. now apply IH.
Qed.

Lemma form_encode_no_ampersand s : Query.mentions "&" (form_encode s) = false.
Proof.
  induction s as [|c s IH]; [reflexivity|].
  destruct c as [[] [] [] [] [] [] [] []]; exact IH.
Qed.

Lemma mentions_app c a b : Query.mentions c (a ++ String c b) = true.
Proof.
  induction a as [|x a IH]; simpl.
  - now rewrite Ascii.eqb_refl.
  - rewrite IH. apply orb_true_r.
Qed.

Lemma append_inv_head s a b : s ++ a = s ++ b -> a = b.
Proof.
  induction s as [|c s IH]; simpl; [trivial|].
  intros H. injection H as H. now apply IH.
Qed.

Lemma append_assoc (a b c : string) : (a ++ b) ++ c = a ++ b ++ c.
Proof.
  induction a as [|x a IH]; simpl; [reflexivity | now rewrite IH].
Qed.

(** Two texts without [&], each followed by [&] and more, are equal piece by piece. *)
Lemma split_at_ampersand : forall a a' b b',
  Query.mentions "&" a = false -> Query.mentions "&" a' = false ->
  a ++ String "&" b = a' ++ String "&" b' -> a = a' /\ b = b'.
Proof.
  induction a as [|x a IH]; intros [|x' a'] b b' Ha Ha' Heq; simpl in *.
  - injection Heq as ->. auto.
  - injection Heq as <- _. now rewrite Ascii.eqb_refl in Ha'.
  - injection Heq as -> _. now rewrite Ascii.eqb_refl in Ha.
  - injection Heq as -> Heq.
    apply orb_false_iff in Ha, Ha'.
    destruct (IH a' b b' (proj2 Ha) (proj2 Ha') Heq) as [-> ->]. auto.
Qed.

Lemma append_nil_r (s : string) : s ++ EmptyString = s.
Proof.
  induction s as [|c s IH]; simpl; [reflexivity | now rewrite IH].
Qed.

Lemma params_snoc k v : forall l,
  l <> [] ->
  URLSearchParams_toString (l ++ [(k, v)])
  = URLSearchParams_toString l ++ "&" ++ form_encode k ++ "=" ++ form_encode v.
Proof.
  induction l as [|[k0 v0] l IH]; intros Hne; [congruence|].
  destruct l as [|[k1 v1] l].
  - cbn [app URLSearchParams_toString]. now rewrite !append_assoc.
  - change (((k0, v0) :: (k1, v1) :: l) ++ [(k, v)])%list
      with ((k0, v0) :: (((k1, v1) :: l) ++ [(k, v)]))%list.
    change (URLSearchParams_toString ((k0, v0) :: (k1, v1) :: l))
      with (form_encode k0 ++ "=" ++ form_encode v0 ++ "&"
            ++ URLSearchParams_toString ((k1, v1) :: l)).
    assert (Hcons : forall rest, rest <> [] ->
              URLSearchParams_toString ((k0, v0) :: rest)
              = form_encode k0 ++ "=" ++ form_encode v0 ++ "&" ++ URLSearchParams_toString rest).
    { intros [|[] rest] H; [congruence | reflexivity]. }
    rewrite Hcons by (destruct l; discriminate).
    rewrite IH by discriminate.
    now rewrite !append_assoc.
Qed.

(** The URL with selections is the URL without them, followed by one
    parameter for each selection that is set. *)
Lemma viewport_url_shape env f vp :
  viewport_url env f vp =
  viewport_url env {| operador := EmptyString; tecnologia := EmptyString; viewport := None |} vp
  ++ Query.selection_param "operador" (operador f)
  ++ Query.selection_param "tecnologia" (tecnologia f).
Proof.
  unfold viewport_url. cbn [operador tecnologia].
  set (base := API_BASE env).
  set (endpoint := if zoom vp <=? 10 then "/map/clusters" else "/map/antenas").
  set (core := [("bbox", join "," (bbox vp)); ("zoom", Z_toString (zoom vp))]).
  assert (Hcore : core <> []) by discriminate.
  assert (Hkey1 : form_encode "operador" = "operador") by reflexivity.
  assert (Hkey2 : form_encode "tecnologia" = "tecnologia") by reflexivity.
  change (truthy_string EmptyString) with false. cbv iota.
  rewrite !app_nil_r.
  unfold Query.selection_param.
  destruct (operador f) as [|c1 s1], (tecnologia f) as [|c2 s2].
  - change (truthy_string EmptyString) with false. cbv iota.
    now rewrite !app_nil_r, !append_nil_r.
  - change (truthy_string EmptyString) with false.
    change (truthy_string (String c2 s2)) with true. cbv iota.
    rewrite app_nil_l, params_snoc, Hkey2 by assumption.
    now rewrite !append_assoc.
  - change (truthy_string EmptyString) with false.
    change (truthy_string (String c1 s1)) with true. cbv iota.
    rewrite app_nil_r, params_snoc, Hkey1 by assumption.
    now rewrite !append_assoc, append_nil_r.
  - change (truthy_string (String c1 s1)) with true.
    change (truthy_string (String c2 s2)) with true. cbv iota.
    rewrite app_assoc, params_snoc, params_snoc, Hkey1, Hkey2
      by (assumption || (destruct core; discriminate)).
    now rewrite !append_assoc.
Qed.

Ltac strip_literal H :=
  repeat match type of H with
         | String ?a _ = String ?a _ => injection H as H
         end.

Lemma selection_params_inj op tec op' tec' :
  Query.selection_param "operador" op ++ Query.selection_param "tecnologia" tec
  = Query.selection_param "operador" op' ++ Query.selection_param "tecnologia" tec' ->
  op = op' /\ tec = tec'.
Proof.
  unfold Query.selection_param.
  destruct op as [|c1 s1], tec as [|c2 s2], op' as [|c1' s1'], tec' as [|c2' s2'];
    repeat match goal with
           | |- context [form_encode (String ?c ?s)] =>
               let E := fresh "E" in
               let HE := fresh "HE" in
               remember (form_encode (String c s)) as E eqn:HE
           end;
    cbn [String.append]; rewrite ?append_assoc; cbn [String.append];
    rewrite ?append_nil_r;
    intros H; try discriminate H; try (split; reflexivity); strip_literal H.
  - subst. apply form_encode_inj in H. now rewrite H.
  - subst. apply form_encode_inj in H. now rewrite H.
  - exfalso. pose proof (form_encode_no_ampersand (String c1 s1)) as Hno.
    rewrite <- HE, H, mentions_app in Hno. discriminate.
  - exfalso. pose proof (form_encode_no_ampersand (String c1' s1')) as Hno.
    rewrite <- HE1, <- H, mentions_app in Hno. discriminate.
  - apply split_at_ampersand in H;
      [| subst; apply form_encode_no_ampersand | subst; apply form_encode_no_ampersand].
    destruct H as [H1 H2]. strip_literal H2. subst.
    apply form_encode_inj in H1, H2. now rewrite H1, H2.
Qed.

(** X9. For one viewport, two pairs of selections that differ give two
    different URLs, whatever characters the selections contain: data fetched
    under one pair of selections is never stored in the cache under the key of
    another. *)
Theorem viewport_url_separates_selections :
  forall env vp f f',
    viewport_url env f vp = viewport_url env f' vp ->
    operador f = operador f' /\ tecnologia f = tecnologia f'.
Proof.
  intros env vp f f' Heq.
  rewrite (viewport_url_shape env f), (viewport_url_shape env f') in Heq.
  apply append_inv_head in Heq. now apply selection_params_inj.
Qed.

Lemma viewport_url_separates_selections_witness :
  viewport_url None
    {| operador := "Orange"; tecnologia := "5G"; viewport := None |} Sample.madrid
  = viewport_url None
      {| operador := "Orange"; tecnologia := "5G"; viewport := Some Sample.madrid |} Sample.madrid
  /\ "Orange" = "Orange" /\ "5G" = "5G".
Proof.
  split; [reflexivity|].
  apply (viewport_url_separates_selections None Sample.madrid
           {| operador := "Orange"; tecnologia := "5G"; viewport := None |}
           {| operador := "Orange"; tecnologia := "5G"; viewport := Some Sample.madrid |}).
  reflexivity.
Defined.

(** X21. The URL of a viewport, written out: the base, the clusters endpoint
    up to zoom 10 and the antennas endpoint above, then the query with the
    bounding box, the zoom and, in this order, the operator and the technology
    when they are set, each value encoded. *)
Theorem viewport_url_format :
  forall env f vp,
    viewport_url env f vp =
    API_BASE env
    ++ (if zoom vp <=? 10 then "/map/clusters" else "/map/antenas")
    ++ "?bbox=" ++ form_encode (join "," (bbox vp))
    ++ "&zoom=" ++ form_encode (Z_toString (zoom vp))
    ++ (if truthy_string (operador f) then "&operador=" ++ form_encode (operador f)
        else EmptyString)
    ++ (if truthy_string (tecnologia f) then "&tecnologia=" ++ form_encode (tecnologia f)
        else EmptyString).
Proof.
  intros env f vp. rewrite viewport_url_shape.
  assert (Hbase :
    viewport_url env
      {| operador := EmptyString; tecnologia := EmptyString; viewport := None |} vp
    = API_BASE env
      ++ (if zoom vp <=? 10 then "/map/clusters" else "/map/antenas")
      ++ "?bbox=" ++ form_encode (join "," (bbox vp))
      ++ "&zoom=" ++ form_encode (Z_toString (zoom vp))).
  { unfold viewport_url. cbn [operador tecnologia].
    change (truthy_string EmptyString) with false. cbv iota.
    rewrite !app_nil_r. cbn [URLSearchParams_toString].
    assert (Hk1 : form_encode "bbox" = "bbox") by reflexivity.
    assert (Hk2 : form_encode "zoom" = "zoom") by reflexivity.
    rewrite Hk1, Hk2. cbn [String.append].
    rewrite ?append_assoc. cbn [String.append]. reflexivity. }
  rewrite Hbase. unfold Query.selection_param.
  destruct (operador f) as [|c1 s1], (tecnologia f) as [|c2 s2];
    change (truthy_string EmptyString) with false;
    try change (truthy_string (String c1 s1)) with true;
    try change (truthy_string (String c2 s2)) with true;
    cbv iota; rewrite ?append_assoc; cbn [String.append]; rewrite ?append_assoc;
    reflexivity.
Qed.

End UrlMore.

(* ================================================================== *)
(** * More about [handleViewportChange] *)
(* ================================================================== *)

Section ViewportMore.
Import Js Eff Api App.

(** What [reload] does, by the outcome of its load and the payload. *)
Lemma reload_run env x vp p :
  reload env x vp p =
  match loadMapData x (viewport_url env (filters (ui p)) vp) (world p) with
  | (Throw e, w) => (Throw e, {| ui := ui p; world := w |})
  | (Normal data, w) =>
      match prop data "features" with
      | Throw e => (Throw e, {| ui := ui p; world := w |})
      | Normal features =>
          (Normal tt,
           {| ui := {| antenas := or_else features (JArr []);
                       stats := stats (ui p);
                       loading := loading (ui p);
                       error := error (ui p);
                       filters := filters (ui p) |};
              world := w |})
      end
  end.
Proof.
  unfold reload, bind, gets, lift, of_completion, setAntenas, modify.
  destruct (loadMapData x _ (world p)) as [[data|err] w]; [|reflexivity].
  destruct (prop data "features"); reflexivity.
Qed.

(** X10. [handleViewportChange] never throws, whatever the viewport, the
    network and the payload, and the only state cell it can change is
    [antenas]: [stats], [loading], [error] and [filters] are after the call
    what they were before. Without a viewport it does nothing at all. *)
Theorem viewport_change_is_contained :
  forall env x vp p,
    fst (handleViewportChange env x vp p) = Normal tt /\
    stats (ui (snd (handleViewportChange env x vp p))) = stats (ui p) /\
    loading (ui (snd (handleViewportChange env x vp p))) = loading (ui p) /\
    error (ui (snd (handleViewportChange env x vp p))) = error (ui p) /\
    filters (ui (snd (handleViewportChange env x vp p))) = filters (ui p) /\
    (vp = None -> snd (handleViewportChange env x vp p) = p).
Proof.
  intros env x [vp|] p; unfold handleViewportChange.
  - unfold try_catch. rewrite reload_run.
    destruct (loadMapData x _ (world p)) as [[data|err] w].
    + destruct (prop data "features"); simpl; repeat split; discriminate.
    + simpl. repeat split; discriminate.
  - simpl. repeat split; reflexivity.
Qed.

Lemma viewport_change_is_contained_witness :
  snd (handleViewportChange None Sample.offline None
         (Sample.page_with [JObj Sample.movistar_5g] Sample.warm))
  = Sample.page_with [JObj Sample.movistar_5g] Sample.warm.
Proof.
  apply (viewport_change_is_contained None Sample.offline None
           (Sample.page_with [JObj Sample.movistar_5g] Sample.warm)).
  reflexivity.
Defined.

Lemma reload_returned env x vp p data features :
  fst (loadMapData x (viewport_url env (filters (ui p)) vp) (world p)) = Normal data ->
  prop data "features" = Normal features ->
  snd (handleViewportChange env x (Some vp) p) =
  {| ui := {| antenas := or_else features (JArr []);
              stats := stats (ui p);
              loading := loading (ui p);
              error := error (ui p);
              filters := filters (ui p) |};
     world := snd (loadMapData x (viewport_url env (filters (ui p)) vp) (world p)) |}.
Proof.
  intros Hload Hprop.
  unfold handleViewportChange, try_catch. rewrite reload_run.
  destruct (loadMapData x _ (world p)) as [[data'|err] w]; simpl in Hload; [|discriminate].
  injection Hload as ->. now rewrite Hprop.
Qed.

(** X11. When the load of a viewport returns a payload that is not [null],
    the data set is replaced by the payload's [features], and by the empty list
    when the payload has no [features] or a falsy one: nothing of the prior
    data set is kept. *)
Theorem viewport_change_replaces_data :
  forall env x vp p data features,
    fst (loadMapData x (viewport_url env (filters (ui p)) vp) (world p)) = Normal data ->
    prop data "features" = Normal features ->
    antenas (ui (snd (handleViewportChange env x (Some vp) p))) = or_else features (JArr []) /\
    (features = None -> antenas (ui (snd (handleViewportChange env x (Some vp) p))) = JArr []) /\
    world (snd (handleViewportChange env x (Some vp) p))
      = snd (loadMapData x (viewport_url env (filters (ui p)) vp) (world p)).
Proof.
  intros env x vp p data features Hload Hprop.
  rewrite (reload_returned env x vp p data features Hload Hprop). cbn [ui world antenas].
  repeat split. now intros ->.
Qed.

Lemma viewport_change_replaces_data_witness :
  fst (loadMapData (Sample.answered Sample.stats_body)
         (viewport_url None (filters (ui (Sample.page_with [JObj Sample.movistar_5g] (initial 0))))
            Sample.madrid)
         (world (Sample.page_with [JObj Sample.movistar_5g] (initial 0))))
    = Normal Sample.stats_body /\
  prop Sample.stats_body "features" = Normal None /\
  antenas (ui (snd (handleViewportChange None (Sample.answered Sample.stats_body)
                      (Some Sample.madrid)
                      (Sample.page_with [JObj Sample.movistar_5g] (initial 0)))))
    = JArr [].
Proof.
  split; [reflexivity|]. split; [reflexivity|].
  apply (proj1 (proj2 (viewport_change_replaces_data None (Sample.answered Sample.stats_body)
                         Sample.madrid (Sample.page_with [JObj Sample.movistar_5g] (initial 0))
                         Sample.stats_body None eq_refl eq_refl))).
  reflexivity.
Defined.

(** X12. Coming back to a viewport: when a first change of viewport went to
    the network and its load returned, a later change to the same viewport
    under the same selections, made while the entry is younger than five
    minutes and the cache has not changed, sends no request, and shows the
    same data set when the payload was not [null]. *)
Theorem repeated_viewport_is_served_from_cache :
  forall env x1 x2 vp p data p2,
    Spec.cached_fresh (viewport_url env (filters (ui p)) vp) (world p) = false ->
    fst (loadMapData x1 (viewport_url env (filters (ui p)) vp) (world p)) = Normal data ->
    filters (ui p2) = filters (ui p) ->
    CACHE (world p2) = CACHE (world (snd (handleViewportChange env x1 (Some vp) p))) ->
    clock (world p2) - clock (world (snd (handleViewportChange env x1 (Some vp) p)))
      < 5 * 60 * 1000 ->
    requests (world (snd (handleViewportChange env x2 (Some vp) p2))) = requests (world p2) /\
    (data <> JNull ->
     antenas (ui (snd (handleViewportChange env x2 (Some vp) p2)))
     = antenas (ui (snd (handleViewportChange env x1 (Some vp) p)))).
Proof.
  intros env x1 x2 vp p data p2 Hmiss Hload Hfilters Hcache Hage.
  set (url := viewport_url env (filters (ui p)) vp) in *.
  assert (Hworld1 : CACHE (world (snd (handleViewportChange env x1 (Some vp) p)))
                    = CACHE (snd (loadMapData x1 url (world p))) /\
                    clock (world (snd (handleViewportChange env x1 (Some vp) p)))
                    = clock (snd (loadMapData x1 url (world p)))).
  { unfold handleViewportChange, try_catch. rewrite reload_run. fold url.
    destruct (loadMapData x1 url (world p)) as [[d|err] w]; [|split; reflexivity].
    destruct (prop d "features"); split; reflexivity. }
  destruct Hworld1 as [Hc1 Hk1]. rewrite Hc1 in Hcache. rewrite Hk1 in Hage.
  assert (Hentry : JsMap.get url (CACHE (world p2))
                   = Some {| data := data;
                             timestamp := clock (snd (loadMapData x1 url (world p))) |}).
  { rewrite Hcache. rewrite (load_miss _ _ _ Hmiss) in *.
    destruct (request_cases x1 url (world p))
      as [_ [(err & Hr & _) | (v & resp & Hr & _ & _ & _ & _ & _ & Hclock & Hc)]];
      rewrite Hload in Hr; [discriminate|].
    injection Hr as <-. rewrite Hc, Hclock. apply get_set_same. }
  pose proof (load_hit x2 url (world p2) _ Hentry Hage) as Hhit. simpl in Hhit.
  assert (Hsecond : forall features,
            prop data "features" = Normal features ->
            snd (handleViewportChange env x2 (Some vp) p2)
            = {| ui := {| antenas := or_else features (JArr []);
                          stats := stats (ui p2);
                          loading := loading (ui p2);
                          error := error (ui p2);
                          filters := filters (ui p2) |};
                 world := printed (LogCacheHit url) (world p2) |}).
  { intros features Hprop. unfold handleViewportChange, try_catch.
    rewrite reload_run, Hfilters. fold url. rewrite Hhit, Hprop. reflexivity. }
  split.
  - unfold handleViewportChange, try_catch. rewrite reload_run, Hfilters. fold url.
    rewrite Hhit. destruct (prop data "features"); reflexivity.
  - intros Hnull.
    assert (Hprop : exists features, prop data "features" = Normal features).
    { destruct data; try (eexists; reflexivity). congruence. }
    destruct Hprop as [features Hprop].
    rewrite (Hsecond features Hprop).
    rewrite (reload_returned env x1 vp p data features Hload Hprop).
    reflexivity.
Qed.

Lemma repeated_viewport_is_served_from_cache_witness :
  Spec.cached_fresh
    (viewport_url None (filters (ui (Sample.page_with [] (initial 0)))) Sample.madrid)
    (world (Sample.page_with [] (initial 0))) = false /\
  requests (world (snd (handleViewportChange None Sample.offline (Some Sample.madrid)
                          (snd (handleViewportChange None
                                  (Sample.answered Sample.features_body)
                                  (Some Sample.madrid) (Sample.page_with [] (initial 0)))))))
    = requests (world (snd (handleViewportChange None (Sample.answered Sample.features_body)
                              (Some Sample.madrid) (Sample.page_with [] (initial 0))))).
Proof.
  split; [reflexivity|].
  apply (proj1 (repeated_viewport_is_served_from_cache None
                  (Sample.answered Sample.features_body) Sample.offline Sample.madrid
                  (Sample.page_with [] (initial 0)) Sample.features_body
                  (snd (handleViewportChange None (Sample.answered Sample.features_body)
                          (Some Sample.madrid) (Sample.page_with [] (initial 0))))
                  eq_refl eq_refl eq_refl eq_refl eq_refl)).
Defined.

End ViewportMore.

(* ================================================================== *)
(** * More about [filteredAntenas] *)
(* ================================================================== *)

Section FilterMore.
Import Js Eff Api App.

Lemma differs_total props key selection :
  props <> JNull -> exists b, differs props key selection = Normal b.
Proof.
  intros Hnull. unfold differs.
  destruct (truthy_string selection); [|now eexists].
  destruct props; try (eexists; reflexivity). congruence.
Qed.

Lemma or_else_object_not_null p : or_else p (JObj []) <> JNull.
Proof.
  destruct p as [v|]; simpl; [|discriminate].
  destruct v; simpl; try discriminate.
  - destruct b; discriminate.
  - destruct (negb (Qnum q =? 0)); discriminate.
  - destruct (negb (s =? EmptyString)%string); discriminate.
Qed.

(** The callback throws on [null] and on nothing else. *)
Lemma keeps_total f item : item <> JNull -> exists b, keeps f item = Normal b.
Proof.
  intros Hnull. unfold keeps.
  assert (Hprop : exists p, prop item "properties" = Normal p).
  { destruct item; try (eexists; reflexivity). congruence. }
  destruct Hprop as [p ->]. cbn [and_then].
  pose proof (or_else_object_not_null p) as Hprops.
  destruct (differs_total _ "operador" (operador f) Hprops) as [b1 ->]. cbn [and_then].
  destruct b1; [now eexists|].
  destruct (differs_total _ "tecnologia" (tecnologia f) Hprops) as [b2 ->]. cbn [and_then].
  destruct b2; now eexists.
Qed.

Lemma keeps_null f :
  keeps f JNull = Throw (TypeError "Cannot read properties of null (reading 'properties')").
Proof. reflexivity. Qed.

(** X13. [filteredAntenas] throws a [TypeError] exactly when the data set
    is not an array or has a [null] among its items, whatever the selections;
    one [null] item is enough to lose the whole list. *)
Theorem filter_throws_iff :
  forall antenas f,
    (exists e, filteredAntenas antenas f = Throw e) <->
    (forall items, antenas <> JArr items) \/ (exists items, antenas = JArr items /\ In JNull items).
Proof.
  assert (Harr : forall f items,
            (exists e, Array_filter (keeps f) items = Throw e) <-> In JNull items).
  { intros f. induction items as [|item items IH]; simpl.
    - split; [intros [e H]; discriminate | tauto].
    - destruct item as [| b | q | s | xs | fields] eqn:Eitem.
      1: { rewrite keeps_null. split; [now left | now eexists]. }
      all: rewrite <- Eitem;
        assert (Hnn : item <> JNull) by (rewrite Eitem; discriminate);
        destruct (keeps_total f item Hnn) as [keep ->];
        destruct (Array_filter (keeps f) items) as [kept|e];
        (split;
         [ intros [e' H]; try discriminate; right; apply IH; now eexists
         | intros [H | H];
           [ congruence
           | apply IH in H; destruct H as [e' H]; try discriminate; now eexists ] ]). }
  intros antenas f. destruct antenas as [| b | q | s | items | fields]; simpl.
  5: { rewrite Harr. split.
       - intros H. right. now exists items.
       - intros [H | (items' & Heq & Hin)]; [now destruct (H items)|].
         now injection Heq as ->. }
  all: split; [intros _; left; discriminate | intros _; now eexists].
Qed.

(** X14. What [filteredAntenas] returns is made of items of the data set, in
    no greater number, and filtering it again under the same selections gives
    it back; with no selection set it is the whole data set. *)
Theorem filter_keeps_a_part :
  forall items f kept,
    filteredAntenas (JArr items) f = Normal kept ->
    (forall item, In item kept -> In item items) /\
    (length kept <= length items)%nat /\
    filteredAntenas (JArr kept) f = Normal kept /\
    (operador f = EmptyString -> tecnologia f = EmptyString -> kept = items).
Proof.
  intros items f. simpl.
  induction items as [|item items IH]; intros kept Hrun; simpl in *.
  - injection Hrun as <-. repeat split; auto.
  - destruct (keeps f item) as [keep|e] eqn:Hkeep; [|discriminate].
    destruct (Array_filter (keeps f) items) as [rest|e]; [|discriminate].
    injection Hrun as <-.
    destruct (IH rest eq_refl) as (Hin & Hlen & Hagain & Hall).
    destruct keep; repeat split.
    + intros x [<- | Hx]; [now left | right; now apply Hin].
    + simpl. lia.
    + simpl. now rewrite Hkeep, Hagain.
    + intros Ho Ht. f_equal. now apply Hall.
    + intros x Hx. right. now apply Hin.
    + simpl. lia.
    + assumption.
    + intros Ho Ht. exfalso.
      unfold keeps, differs in Hkeep. rewrite Ho, Ht in Hkeep.
      destruct (prop item "properties"); simpl in Hkeep; discriminate.
Qed.

Lemma filter_keeps_a_part_witness :
  filteredAntenas (JArr [JObj Sample.movistar_5g; JNum (inject_Z 7); JObj Sample.vodafone_4g])
    {| operador := "Vodafone"; tecnologia := EmptyString; viewport := None |}
    = Normal [JObj Sample.vodafone_4g] /\
  (length [JObj Sample.vodafone_4g] <= 3)%nat /\
  filteredAntenas (JArr [JObj Sample.vodafone_4g])
    {| operador := "Vodafone"; tecnologia := EmptyString; viewport := None |}
    = Normal [JObj Sample.vodafone_4g].
Proof.
  destruct (filter_keeps_a_part
              [JObj Sample.movistar_5g; JNum (inject_Z 7); JObj Sample.vodafone_4g]
              {| operador := "Vodafone"; tecnologia := EmptyString; viewport := None |}
              [JObj Sample.vodafone_4g] eq_refl) as (_ & Hlen & Hagain & _).
  split; [reflexivity|]. split; [exact Hlen | exact Hagain].
Defined.

End FilterMore.

(* ================================================================== *)
(** * The startup *)
(* ================================================================== *)

Section StartupMore.
Import Js Eff Api App Async Component.

Lemma begin_run url w :
  begin url w =
  match JsMap.get url (CACHE w) with
  | Some c =>
      if clock w - timestamp c <? CACHE_DURATION
      then (Normal (Answered (data c)), printed (LogCacheHit url) w)
      else (Normal InFlight, sent url (printed (LogApiCall url) w))
  | None => (Normal InFlight, sent url (printed (LogApiCall url) w))
  end.
Proof.
  unfold begin, bind, ret, gets, modify, Date_now, CACHE_get, console_log.
  cbn -[Z.sub Z.ltb CACHE_DURATION].
  destruct (JsMap.get url (CACHE w)) as [c|]; [|reflexivity].
  cbn -[Z.sub Z.ltb CACHE_DURATION].
  now destruct (clock w - timestamp c <? CACHE_DURATION).
Qed.

Lemma finish_run x url started w :
  finish x url started w =
  match settlement x with
  | inl error =>
      (Throw (rethrown error),
       printed (LogApiError url error) (at_time (started + settles_after x) w))
  | inr data =>
      (Normal data,
       printed (LogApiSuccess url data)
         (with_cache
            (JsMap.set url {| data := data; timestamp := started + settles_after x |} (CACHE w))
            (at_time (started + settles_after x) w)))
  end.
Proof.
  unfold finish, bind, ret, throw, gets, modify, Date_now, CACHE_set, console_log.
  cbn -[Z.add settles_after settlement rethrown].
  destruct (settlement x); reflexivity.
Qed.

(** What a call gives its caller, read off the cache and the exchange. *)
Lemma load_result x url w :
  fst (loadMapData x url w) =
  match JsMap.get url (CACHE w) with
  | Some c => if clock w - timestamp c <? CACHE_DURATION then Normal (data c) else outcome x
  | None => outcome x
  end.
Proof.
  destruct (load_outcomes x url w) as [[_ (e & Hget & Hage & Hhit)] | [Hstale Hmiss]].
  - apply Z.ltb_lt in Hage. now rewrite Hhit, Hget, Hage.
  - rewrite Hmiss, request_is_finish, finish_run.
    unfold Spec.cached_fresh, Spec.fresh in Hstale. unfold outcome.
    destruct (JsMap.get url (CACHE w)) as [c|]; [rewrite Hstale|];
      now destruct (settlement x).
Qed.

Lemma startup_urls_differ env : stats_url env <> antenas_url env.
Proof.
  unfold stats_url, antenas_url. intros H. apply append_inv_head in H. discriminate.
Qed.

Lemma resume_run joined p :
  resume joined p =
  match joined with
  | Throw e =>
      (Normal (Some e),
       {| ui := {| antenas := antenas (ui p); stats := stats (ui p); loading := false;
                   error := Some load_failed; filters := filters (ui p) |};
          world := world p |})
  | Normal (a, b) =>
      match prop b "features" with
      | Throw e =>
          (Normal (Some e),
           {| ui := {| antenas := antenas (ui p); stats := a; loading := false;
                       error := Some load_failed; filters := filters (ui p) |};
              world := world p |})
      | Normal features =>
          (Normal None,
           {| ui := {| antenas := or_else features (JArr []); stats := a; loading := false;
                       error := error (ui p); filters := filters (ui p) |};
              world := world p |})
      end
  end.
Proof.
  unfold resume, try_catch, bind, ret, of_completion, setStats, setAntenas, setError,
    setLoading, with_ui, modify.
  destruct joined as [[a b]|e]; [|reflexivity].
  cbn [fst snd]. destruct (prop b "features"); reflexivity.
Qed.

(** The state of the component after the startup, by what the two calls
    give when made on the state the startup begins in. *)
Lemma startup_ui env x1 x2 p :
  ui (snd (initializeData env x1 x2 p)) =
  match fst (loadMapData x1 (stats_url env) (world p)),
        fst (loadMapData x2 (antenas_url env) (world p)) with
  | Normal a, Normal b =>
      match prop b "features" with
      | Normal features =>
          {| antenas := or_else features (JArr []); stats := a; loading := false;
             error := None; filters := filters (ui p) |}
      | Throw _ =>
          {| antenas := antenas (ui p); stats := a; loading := false;
             error := Some load_failed; filters := filters (ui p) |}
      end
  | _, _ =>
      {| antenas := antenas (ui p); stats := stats (ui p); loading := false;
         error := Some load_failed; filters := filters (ui p) |}
  end.
Proof.
  rewrite !load_result. unfold outcome.
  unfold initializeData, bind, lift, settle, setLoading, setError, with_ui, modify,
    Date_now, gets, ret.
  cbn [ui world fst snd].
  rewrite !begin_run.
  destruct (settlement x1) as [e1|v1] eqn:S1;
    destruct (settlement x2) as [e2|v2] eqn:S2;
    (destruct (JsMap.get (stats_url env) (CACHE (world p))) as [c1|];
     [destruct (clock (world p) - timestamp c1 <? CACHE_DURATION)|]);
    cbn [ui world fst snd CACHE clock printed sent];
    rewrite ?begin_run; cbn [ui world fst snd CACHE clock printed sent];
    (destruct (JsMap.get (antenas_url env) (CACHE (world p))) as [c2|];
     [destruct (clock (world p) - timestamp c2 <? CACHE_DURATION)|]);
    cbn [ui world fst snd CACHE clock printed sent];
    try destruct (settles_after x1 <=? settles_after x2);
    repeat (progress (rewrite ?finish_run, ?S1, ?S2, ?resume_run;
                      cbn [ui world fst snd and_then antenas stats loading error filters]));
    try match goal with
        | |- context [prop ?b "features"] => destruct (prop b "features")
        end;
    reflexivity.
Qed.

(** The startup never throws; what it returns tells whether the error cell
    was set. *)
Lemma startup_result env x1 x2 p :
  (fst (initializeData env x1 x2 p) = Normal None /\
   error (ui (snd (initializeData env x1 x2 p))) = None)
  \/
  (exists e, fst (initializeData env x1 x2 p) = Normal (Some e) /\
             error (ui (snd (initializeData env x1 x2 p))) = Some load_failed).
Proof.
  unfold initializeData, bind, lift, settle, setLoading, setError, with_ui, modify,
    Date_now, gets, ret.
  cbn [ui world fst snd].
  rewrite !begin_run.
  destruct (settlement x1) as [e1|v1] eqn:S1;
    destruct (settlement x2) as [e2|v2] eqn:S2;
    (destruct (JsMap.get (stats_url env) (CACHE (world p))) as [c1|];
     [destruct (clock (world p) - timestamp c1 <? CACHE_DURATION)|]);
    cbn [ui world fst snd CACHE clock printed sent];
    rewrite ?begin_run; cbn [ui world fst snd CACHE clock printed sent];
    (destruct (JsMap.get (antenas_url env) (CACHE (world p))) as [c2|];
     [destruct (clock (world p) - timestamp c2 <? CACHE_DURATION)|]);
    cbn [ui world fst snd CACHE clock printed sent];
    try destruct (settles_after x1 <=? settles_after x2);
    repeat (progress (rewrite ?finish_run, ?S1, ?S2, ?resume_run;
                      cbn [ui world fst snd and_then antenas stats loading error filters]));
    try match goal with
        | |- context [prop ?b "features"] => destruct (prop b "features")
        end;
    cbn [ui world fst snd error];
    solve [ left; split; reflexivity | right; eexists; split; reflexivity ].
Qed.

(** X15. The startup never throws and always ends with [loading] off,
    whatever the two exchanges do; it leaves the selections alone; and it
    writes an error to the console exactly when it sets the error cell, which
    then holds the one fixed message. *)
Theorem startup_always_ends_loading :
  forall env x1 x2 p,
    (exists logged, fst (initializeData env x1 x2 p) = Normal logged) /\
    loading (ui (snd (initializeData env x1 x2 p))) = false /\
    filters (ui (snd (initializeData env x1 x2 p))) = filters (ui p) /\
    (fst (initializeData env x1 x2 p) = Normal None <->
     error (ui (snd (initializeData env x1 x2 p))) = None) /\
    (error (ui (snd (initializeData env x1 x2 p))) = None \/
     error (ui (snd (initializeData env x1 x2 p)))
       = Some "No se pudieron cargar los datos de antenas. Verifica tu conexión.").
Proof.
  intros env x1 x2 p.
  assert (Hflags : loading (ui (snd (initializeData env x1 x2 p))) = false /\
                   filters (ui (snd (initializeData env x1 x2 p))) = filters (ui p)).
  { rewrite startup_ui.
    destruct (fst (loadMapData x1 (stats_url env) (world p))) as [a|e1];
      destruct (fst (loadMapData x2 (antenas_url env) (world p))) as [b|e2];
      try (split; reflexivity).
    destruct (prop b "features"); split; reflexivity. }
  destruct Hflags as [Hloading Hfilters].
  destruct (startup_result env x1 x2 p) as [[Hr He] | (e & Hr & He)];
    rewrite Hr, He; repeat split; eauto; try discriminate.
Qed.

(** X16. What the startup shows depends on the two calls only through what
    each gives on the state the startup begins in. When both return and the
    antennas payload is not [null], the statistics are the first payload, the
    data set is the second payload's [features] (the empty list when it has
    none) and the error cell is cleared. When both return but the antennas
    payload is [null], the statistics are still replaced and the error cell is
    set. When either call throws, statistics and data set stay as they were
    and the error cell is set. *)
Theorem startup_outcome :
  forall env x1 x2 p,
    (forall a b features,
       fst (loadMapData x1 (stats_url env) (world p)) = Normal a ->
       fst (loadMapData x2 (antenas_url env) (world p)) = Normal b ->
       prop b "features" = Normal features ->
       stats (ui (snd (initializeData env x1 x2 p))) = a /\
       antenas (ui (snd (initializeData env x1 x2 p))) = or_else features (JArr []) /\
       error (ui (snd (initializeData env x1 x2 p))) = None) /\
    (forall a,
       fst (loadMapData x1 (stats_url env) (world p)) = Normal a ->
       fst (loadMapData x2 (antenas_url env) (world p)) = Normal JNull ->
       stats (ui (snd (initializeData env x1 x2 p))) = a /\
       antenas (ui (snd (initializeData env x1 x2 p))) = antenas (ui p) /\
       error (ui (snd (initializeData env x1 x2 p))) = Some load_failed) /\
    (forall e,
       fst (loadMapData x1 (stats_url env) (world p)) = Throw e \/
       fst (loadMapData x2 (antenas_url env) (world p)) = Throw e ->
       stats (ui (snd (initializeData env x1 x2 p))) = stats (ui p) /\
       antenas (ui (snd (initializeData env x1 x2 p))) = antenas (ui p) /\
       error (ui (snd (initializeData env x1 x2 p))) = Some load_failed).
Proof.
  intros env x1 x2 p. rewrite startup_ui. repeat apply conj.
  - intros a b features -> -> ->. auto.
  - intros a -> ->. auto.
  - intros e [-> | ->].
    + auto.
    + destruct (fst (loadMapData x1 (stats_url env) (world p))); auto.
Qed.

Lemma startup_outcome_witness :
  fst (loadMapData (Sample.answered Sample.stats_body) (stats_url None) (initial 1000))
    = Normal Sample.stats_body /\
  fst (loadMapData (Sample.answered JNull) (antenas_url None) (initial 1000)) = Normal JNull /\
  stats (ui (snd (initializeData None (Sample.answered Sample.stats_body)
                    (Sample.answered JNull)
                    {| ui := initial_state; world := initial 1000 |}))) = Sample.stats_body /\
  error (ui (snd (initializeData None (Sample.answered Sample.stats_body)
                    (Sample.answered JNull)
                    {| ui := initial_state; world := initial 1000 |}))) = Some load_failed.
Proof.
  destruct (proj1 (proj2 (startup_outcome None (Sample.answered Sample.stats_body)
                            (Sample.answered JNull)
                            {| ui := initial_state; world := initial 1000 |}))
              Sample.stats_body eq_refl eq_refl) as (Hstats & _ & Herror).
  split; [reflexivity|]. split; [reflexivity|]. split; [exact Hstats | exact Herror].
Defined.

(** X17. When neither URL has a fresh entry, the startup sends both
    requests, the statistics first, whatever becomes of either: a call that
    fails at once does not stop the other. Each call that returns leaves its
    payload in the cache under its own URL, even when the startup as a whole
    fails. *)
Theorem startup_sends_both_requests :
  forall env x1 x2 p,
    Spec.cached_fresh (stats_url env) (world p) = false ->
    Spec.cached_fresh (antenas_url env) (world p) = false ->
    requests (world (snd (initializeData env x1 x2 p)))
      = antenas_url env :: stats_url env :: requests (world p) /\
    (forall a,
       fst (loadMapData x1 (stats_url env) (world p)) = Normal a ->
       exists e, JsMap.get (stats_url env) (CACHE (world (snd (initializeData env x1 x2 p))))
                 = Some e /\ data e = a) /\
    (forall b,
       fst (loadMapData x2 (antenas_url env) (world p)) = Normal b ->
       exists e, JsMap.get (antenas_url env) (CACHE (world (snd (initializeData env x1 x2 p))))
                 = Some e /\ data e = b).
Proof.
  intros env x1 x2 p Hm1 Hm2.
  pose proof (startup_urls_differ env) as Hne.
  assert (Hne' : antenas_url env <> stats_url env) by congruence.
  rewrite !load_result.
  unfold Spec.cached_fresh, Spec.fresh in Hm1, Hm2.
  assert (Hb1 : forall w, CACHE w = CACHE (world p) -> clock w = clock (world p) ->
                  begin (stats_url env) w
                  = (Normal InFlight,
                     sent (stats_url env) (printed (LogApiCall (stats_url env)) w))).
  { intros w Hc Hk. rewrite begin_run, Hc, Hk.
    destruct (JsMap.get (stats_url env) (CACHE (world p))); [now rewrite Hm1 | reflexivity]. }
  assert (Hb2 : forall w, CACHE w = CACHE (world p) -> clock w = clock (world p) ->
                  begin (antenas_url env) w
                  = (Normal InFlight,
                     sent (antenas_url env) (printed (LogApiCall (antenas_url env)) w))).
  { intros w Hc Hk. rewrite begin_run, Hc, Hk.
    destruct (JsMap.get (antenas_url env) (CACHE (world p))); [now rewrite Hm2 | reflexivity]. }
  assert (Ho1 : match JsMap.get (stats_url env) (CACHE (world p)) with
                | Some c => if clock (world p) - timestamp c <? CACHE_DURATION
                            then Normal (data c) else outcome x1
                | None => outcome x1
                end = outcome x1).
  { destruct (JsMap.get (stats_url env) (CACHE (world p))); [now rewrite Hm1 | reflexivity]. }
  assert (Ho2 : match JsMap.get (antenas_url env) (CACHE (world p)) with
                | Some c => if clock (world p) - timestamp c <? CACHE_DURATION
                            then Normal (data c) else outcome x2
                | None => outcome x2
                end = outcome x2).
  { destruct (JsMap.get (antenas_url env) (CACHE (world p))); [now rewrite Hm2 | reflexivity]. }
  rewrite Ho1, Ho2. clear Ho1 Ho2. unfold outcome.
  unfold initializeData, bind, lift, settle, setLoading, setError, with_ui, modify,
    Date_now, gets, ret.
  cbn [ui world fst snd].
  rewrite Hb1 by reflexivity. cbn [ui world fst snd].
  rewrite Hb2 by reflexivity. cbn [ui world fst snd CACHE clock printed sent].
  destruct (settlement x1) as [e1|v1] eqn:S1;
    destruct (settlement x2) as [e2|v2] eqn:S2;
    destruct (settles_after x1 <=? settles_after x2);
    repeat (progress (rewrite ?finish_run, ?S1, ?S2, ?resume_run;
                      cbn [ui world fst snd and_then antenas stats loading error filters]));
    try match goal with
        | |- context [prop ?b "features"] => destruct (prop b "features")
        end;
    cbn [ui world fst snd CACHE clock requests printed sent with_cache at_time];
    (split; [reflexivity|]);
    (split; intros ? Hret; try discriminate Hret; injection Hret as <-;
     eexists;
     (split;
      [ rewrite ?get_set_same;
        try (rewrite get_set_other by assumption; rewrite get_set_same);
        reflexivity
      | reflexivity ])).
Qed.

Lemma startup_sends_both_requests_witness :
  Spec.cached_fresh (stats_url None) (initial 1000) = false /\
  Spec.cached_fresh (antenas_url None) (initial 1000) = false /\
  requests (world (snd (initializeData None Sample.not_found
                          (Sample.answered Sample.features_body)
                          {| ui := initial_state; world := initial 1000 |})))
    = [antenas_url None; stats_url None].
Proof.
  split; [reflexivity|]. split; [reflexivity|].
  apply (proj1 (startup_sends_both_requests None Sample.not_found
                  (Sample.answered Sample.features_body)
                  {| ui := initial_state; world := initial 1000 |} eq_refl eq_refl)).
Defined.

End StartupMore.

(* ================================================================== *)
(** * Calls that overlap *)
(* ================================================================== *)

Section OverlapMore.
Import Js Eff Api Async.



End OverlapMore.

(* ================================================================== *)
(** * The screens and the selections *)
(* ================================================================== *)

Section ScreenMore.
Import Js Eff Api App Async Component.

Lemma filter_all {A} (p : A -> bool) (l : list A) :
  (forall a, p a = true) -> filter p l = l.
Proof.
  intros Hp. induction l as [|a l IH]; simpl; [reflexivity|].
  now rewrite Hp, IH.
Qed.

Lemma displayed_all f (records : list Spec.AntennaRecord) :
  operador f = EmptyString -> tecnologia f = EmptyString -> Spec.displayed f records = records.
Proof.
  intros Ho Ht. unfold Spec.displayed. apply filter_all.
  intros r. now rewrite Ho, Ht.
Qed.

Lemma length_map_objects (records : list Spec.AntennaRecord) :
  length (map JObj records) = length records.
Proof.
  induction records as [|r records IH]; simpl; [reflexivity | now rewrite IH].
Qed.

(** X18. The screen after a startup from the initial state. When either call
    throws, it is the error screen with the fixed message. When both return
    and the antennas payload carries a list of records, it is the dashboard
    with the statistics payload, all the records and their number; when the
    payload has no [features], the dashboard with no antenna. *)
Theorem screen_after_startup :
  forall env x1 x2 w,
    (forall e,
       fst (loadMapData x1 (stats_url env) w) = Throw e \/
       fst (loadMapData x2 (antenas_url env) w) = Throw e ->
       render (ui (snd (initializeData env x1 x2 {| ui := initial_state; world := w |})))
       = Normal (ErrorScreen load_failed)) /\
    (forall a b (records : list Spec.AntennaRecord),
       fst (loadMapData x1 (stats_url env) w) = Normal a ->
       fst (loadMapData x2 (antenas_url env) w) = Normal b ->
       prop b "features" = Normal (Some (JArr (map JObj records))) ->
       render (ui (snd (initializeData env x1 x2 {| ui := initial_state; world := w |})))
       = Normal (Dashboard a (filters initial_state) (length records) (map JObj records))) /\
    (forall a b,
       fst (loadMapData x1 (stats_url env) w) = Normal a ->
       fst (loadMapData x2 (antenas_url env) w) = Normal b ->
       prop b "features" = Normal None ->
       render (ui (snd (initializeData env x1 x2 {| ui := initial_state; world := w |})))
       = Normal (Dashboard a (filters initial_state) 0 [])).
Proof.
  intros env x1 x2 w. rewrite startup_ui. cbn [world ui].
  repeat apply conj.
  - intros e [-> | ->]; [reflexivity|].
    now destruct (fst (loadMapData x1 (stats_url env) w)).
  - intros a b records -> -> ->. unfold render.
    cbn [antenas filters or_else truthy loading error initial_state stats].
    unfold filteredAntenas. rewrite filter_records, displayed_all by reflexivity.
    cbn [and_then]. now rewrite length_map_objects.
  - intros a b -> -> ->. reflexivity.
Qed.

Lemma screen_after_startup_witness :
  fst (loadMapData Sample.not_found (stats_url None) (initial 1000))
    = Throw (Error "Error del servidor: HTTP 404: Not Found") /\
  render (ui (snd (initializeData None Sample.not_found (Sample.answered Sample.features_body)
                     {| ui := initial_state; world := initial 1000 |})))
    = Normal (ErrorScreen load_failed).
Proof.
  split; [reflexivity|].
  apply (proj1 (screen_after_startup None Sample.not_found
                  (Sample.answered Sample.features_body) (initial 1000))
           (Error "Error del servidor: HTTP 404: Not Found")).
  left. reflexivity.
Defined.

(** X19. The component throws while rendering exactly when the filtering
    throws, whatever the loading and error cells say: neither the loading
    screen nor the error screen is shown over a data set that cannot be
    filtered. A reload whose payload carries a truthy [features] that is not an
    array leaves the component in such a state. *)
Theorem render_throws_with_filter :
  (forall s e,
     render s = Throw e <-> filteredAntenas (antenas s) (filters s) = Throw e) /\
  (forall env x vp p data v,
     fst (loadMapData x (viewport_url env (filters (ui p)) vp) (world p)) = Normal data ->
     prop data "features" = Normal (Some v) ->
     truthy v = true ->
     (forall items, v <> JArr items) ->
     render (ui (snd (handleViewportChange env x (Some vp) p)))
     = Throw (TypeError "antenas.filter is not a function")).
Proof.
  split.
  - intros s e. unfold render.
    destruct (filteredAntenas (antenas s) (filters s)) as [kept|e']; cbn [and_then].
    + split; [|discriminate].
      destruct (loading s); [discriminate|].
      destruct (error s) as [m|]; [destruct (truthy_string m)|]; discriminate.
    + split; intros H; injection H as ->; reflexivity.
  - intros env x vp p data v Hload Hprop Htruthy Hshape.
    rewrite (reload_returned env x vp p data (Some v) Hload Hprop).
    unfold render. cbn [ui antenas or_else]. rewrite Htruthy.
    destruct v; try reflexivity. now destruct (Hshape items).
Qed.

Lemma render_throws_with_filter_witness :
  fst (loadMapData (Sample.answered (JObj [("features", JObj [("type", JStr "Feature")])]))
         (viewport_url None (filters (ui (Sample.page_with [] (initial 0)))) Sample.madrid)
         (world (Sample.page_with [] (initial 0))))
    = Normal (JObj [("features", JObj [("type", JStr "Feature")])]) /\
  render (ui (snd (handleViewportChange None
                     (Sample.answered (JObj [("features", JObj [("type", JStr "Feature")])]))
                     (Some Sample.madrid) (Sample.page_with [] (initial 0)))))
    = Throw (TypeError "antenas.filter is not a function").
Proof.
  split; [reflexivity|].
  apply (proj2 render_throws_with_filter None
           (Sample.answered (JObj [("features", JObj [("type", JStr "Feature")])]))
           Sample.madrid (Sample.page_with [] (initial 0))
           (JObj [("features", JObj [("type", JStr "Feature")])])
           (JObj [("type", JStr "Feature")]) eq_refl eq_refl eq_refl).
  discriminate.
Defined.

(** X20. [updateFilters] changes the selections and nothing else: the
    world, the records, the statistics, the loading flag and the error stay as
    they were. A key the given object has takes the given value, a key it lacks
    keeps its value, for the operator, the technology and the viewport alike;
    so giving the same object twice is giving it once; and once both
    selections are cleared, every record of the data set is displayed again,
    whatever was selected before. *)
Theorem update_filters_merges :
  forall newFilters p,
    fst (updateFilters newFilters p) = Normal tt /\
    world (snd (updateFilters newFilters p)) = world p /\
    antenas (ui (snd (updateFilters newFilters p))) = antenas (ui p) /\
    error (ui (snd (updateFilters newFilters p))) = error (ui p) /\
    (new_operador newFilters = None ->
     operador (filters (ui (snd (updateFilters newFilters p)))) = operador (filters (ui p))) /\
    (new_tecnologia newFilters = None ->
     tecnologia (filters (ui (snd (updateFilters newFilters p)))) = tecnologia (filters (ui p))) /\
    snd (updateFilters newFilters (snd (updateFilters newFilters p)))
      = snd (updateFilters newFilters p) /\
    (forall records : list Spec.AntennaRecord,
       antenas (ui p) = JArr (map JObj records) ->
       new_operador newFilters = Some EmptyString ->
       new_tecnologia newFilters = Some EmptyString ->
       filteredAntenas (antenas (ui (snd (updateFilters newFilters p))))
         (filters (ui (snd (updateFilters newFilters p))))
       = Normal (map JObj records)) /\
    stats (ui (snd (updateFilters newFilters p))) = stats (ui p) /\
    loading (ui (snd (updateFilters newFilters p))) = loading (ui p) /\
    (new_viewport newFilters = None ->
     viewport (filters (ui (snd (updateFilters newFilters p)))) = viewport (filters (ui p))) /\
    (forall v, new_operador newFilters = Some v ->
     operador (filters (ui (snd (updateFilters newFilters p)))) = v) /\
    (forall v, new_tecnologia newFilters = Some v ->
     tecnologia (filters (ui (snd (updateFilters newFilters p)))) = v) /\
    (forall v, new_viewport newFilters = Some v ->
     viewport (filters (ui (snd (updateFilters newFilters p)))) = v).
Proof.
  intros newFilters p.
  unfold updateFilters, setFilters, with_ui, modify, spread. cbn [fst snd ui world].
  cbn [antenas stats loading error filters operador tecnologia viewport].
  repeat apply conj; try reflexivity.
  - now intros ->.
  - now intros ->.
  - destruct (new_operador newFilters), (new_tecnologia newFilters),
      (new_viewport newFilters); reflexivity.
  - intros records -> Ho Ht. unfold filteredAntenas.
    rewrite filter_records, displayed_all; [reflexivity | |]; cbn [operador tecnologia].
    + now rewrite Ho.
    + now rewrite Ht.
  - now intros ->.
  - now intros v ->.
  - now intros v ->.
  - now intros v ->.
Qed.

Lemma update_filters_merges_witness :
  (antenas (ui (Sample.page_with [JObj Sample.movistar_5g; JObj Sample.vodafone_4g] (initial 0)))
     = JArr (map JObj [Sample.movistar_5g; Sample.vodafone_4g]) /\
   filteredAntenas
     (antenas (ui (snd (updateFilters
                          {| new_operador := Some EmptyString;
                             new_tecnologia := Some EmptyString; new_viewport := None |}
                          (Sample.page_with [JObj Sample.movistar_5g; JObj Sample.vodafone_4g]
                             (initial 0))))))
     (filters (ui (snd (updateFilters
                          {| new_operador := Some EmptyString;
                             new_tecnologia := Some EmptyString; new_viewport := None |}
                          (Sample.page_with [JObj Sample.movistar_5g; JObj Sample.vodafone_4g]
                             (initial 0))))))
   = Normal (map JObj [Sample.movistar_5g; Sample.vodafone_4g])) /\
  (new_operador {| new_operador := Some "Movistar"; new_tecnologia := None;
                   new_viewport := Some (Some Sample.madrid) |} = Some "Movistar" /\
   operador (filters (ui (snd (updateFilters
                                 {| new_operador := Some "Movistar"; new_tecnologia := None;
                                    new_viewport := Some (Some Sample.madrid) |}
                                 (Sample.page_with [JObj Sample.movistar_5g] (initial 0))))))
   = "Movistar") /\
  (new_tecnologia {| new_operador := Some "Movistar"; new_tecnologia := None;
                     new_viewport := Some (Some Sample.madrid) |} = None /\
   tecnologia (filters (ui (snd (updateFilters
                                   {| new_operador := Some "Movistar"; new_tecnologia := None;
                                      new_viewport := Some (Some Sample.madrid) |}
                                   (Sample.page_with [JObj Sample.movistar_5g] (initial 0))))))
   = tecnologia (filters (ui (Sample.page_with [JObj Sample.movistar_5g] (initial 0))))) /\
  (new_viewport {| new_operador := Some "Movistar"; new_tecnologia := None;
                   new_viewport := Some (Some Sample.madrid) |} = Some (Some Sample.madrid) /\
   viewport (filters (ui (snd (updateFilters
                                 {| new_operador := Some "Movistar"; new_tecnologia := None;
                                    new_viewport := Some (Some Sample.madrid) |}
                                 (Sample.page_with [JObj Sample.movistar_5g] (initial 0))))))
   = Some Sample.madrid).
Proof.
  destruct (update_filters_merges
              {| new_operador := Some EmptyString; new_tecnologia := Some EmptyString;
                 new_viewport := None |}
              (Sample.page_with [JObj Sample.movistar_5g; JObj Sample.vodafone_4g]
                 (initial 0)))
    as (_ & _ & _ & _ & _ & _ & _ & Hall & _).
  destruct (update_filters_merges
              {| new_operador := Some "Movistar"; new_tecnologia := None;
                 new_viewport := Some (Some Sample.madrid) |}
              (Sample.page_with [JObj Sample.movistar_5g] (initial 0)))
    as (_ & _ & _ & _ & _ & Hkept & _ & _ & _ & _ & _ & Hop & _ & Hview).
  split.
  { split; [reflexivity|].
    exact (Hall [Sample.movistar_5g; Sample.vodafone_4g] eq_refl eq_refl eq_refl). }
  split.
  { split; [reflexivity|]. exact (Hop "Movistar" eq_refl). }
  split.
  { split; [reflexivity|]. exact (Hkept eq_refl). }
  split; [reflexivity|]. exact (Hview (Some Sample.madrid) eq_refl).
Defined.

End ScreenMore.
